(** * Tutorial 1: data generating process and bias

    A shallow embedding of the computational cells of
    [tutorial1/tutorial1_DGP_and_bias.ipynb]:

    - the construction of the frame of tasks and respondents (cell "Create np
      array with the five choice tasks");
    - the synthetic-choice generator (cell "Compute the utilities given the
      DGP"), with its use of numpy's process-wide random state and the file
      it writes with [to_csv];
    - the utility specifications of the two models and the function
      [estimate_mnl].

    Numbers.  The generator computes in binary64, as the notebook does:
    utilities and Gumbel variates are primitive floats, with their rounding,
    infinities and NaN.  The integer columns of the frame (numpy int64) are
    [Z].  The likelihood, which the estimation library evaluates, is taken
    over the reals as the specification states it.  An exception raised by
    numpy, pandas or the estimation library is the value [None]. *)

From Stdlib Require Import String Ascii.
From Stdlib Require Import ZArith Reals Lra List Bool Arith Lia.
From Stdlib Require Import DecimalString DecimalZ DecimalPos.
From Stdlib Require Import Floats Uint63.
Import ListNotations.

Set Implicit Arguments.

Close Scope R_scope.

(** ** numpy and pandas primitives used by the notebook *)

Module Np.

(** [np.tile(a, (n, 1))] on a two-dimensional array [a], seen as the list of
    its rows: the whole block of rows, [n] times over. *)
Definition tile {A} (a : list A) (n : nat) : list A :=
  concat (repeat a n).

(** [np.arange(lo, lo + n)] *)
Definition arange (lo : Z) (n : nat) : list Z :=
  map (fun i => (lo + Z.of_nat i)%Z) (seq 0 n).

(** [np.repeat(a, k)]: every element [k] times, elements in order. *)
Definition repeat_each {A} (a : list A) (k : nat) : list A :=
  flat_map (fun x => repeat x k) a.

(** [np.concatenate((c, d), axis=1)] with [c] a one-column array: rows are
    glued pairwise; numpy raises when the row counts differ. *)
Fixpoint concatenate_axis1 {A B} (c : list A) (d : list B)
  : option (list (A * B)) :=
  match c, d with
  | [], [] => Some []
  | x :: c', y :: d' =>
      match concatenate_axis1 c' d' with
      | Some r => Some ((x, y) :: r)
      | None => None
      end
  | _, _ => None
  end.

(** Element-wise binary operation on two equally indexed Series. *)
Fixpoint series_map2 {A B C} (f : A -> B -> C) (a : list A) (b : list B)
  : list C :=
  match a, b with
  | x :: a', y :: b' => f x y :: series_map2 f a' b'
  | _, _ => []
  end.

(** [df.loc[mask, col] = v]: rows where the mask is true get [v], the others
    keep what they had. *)
Definition loc_assign {A} (mask : list bool) (v : A) (col : list A)
  : list A :=
  series_map2 (fun (m : bool) old => if m then v else old) mask col.

(** [Series.astype(int)] on a float column whose entries are whole numbers
    or NaN ([None]): pandas raises on any NaN, else converts every entry. *)
Fixpoint astype_int (col : list (option Z)) : option (list Z) :=
  match col with
  | [] => Some []
  | None :: _ => None
  | Some z :: col' =>
      match astype_int col' with
      | Some r => Some (z :: r)
      | None => None
      end
  end.

End Np.

(** ** The global random state

    [np.random.seed] and [np.random.gumbel] act on one process-wide
    generator.  The generator is kept abstract: a type of states, the state a
    seed puts it in, and the transition that yields one standard-Gumbel
    variate. *)

Class RandomState := {
  rng : Type;
  seed_state : Z -> rng;
  gumbel1 : rng -> float * rng
}.

(** Computations that read and update the global random state. *)
Definition Rand `{RandomState} (A : Type) : Type := rng -> A * rng.

Definition ret `{RandomState} {A} (a : A) : Rand A := fun g => (a, g).

Definition bind `{RandomState} {A B} (m : Rand A) (k : A -> Rand B)
  : Rand B :=
  fun g => let (a, g') := m g in k a g'.

Notation "x <- m ;; k" := (bind m (fun x => k))
  (at level 61, m at next level, right associativity).

(** The seeds [np.random.seed] accepts: 0 to 2**32 - 1. *)
Definition seed_in_range (s : Z) : bool :=
  ((0 <=? s) && (s <? 2 ^ 32))%Z.

Section RandomOps.
Context `{RandomState}.

(** [np.random.seed(s)]: outside the range it raises and leaves the
    generator as it was. *)
Definition np_random_seed (s : Z) : Rand (option unit) :=
  fun g => if seed_in_range s then (Some tt, seed_state s) else (None, g).

(** [np.random.gumbel(size=n)]: [n] variates, filled in index order. *)
Fixpoint np_random_gumbel (n : nat) : Rand (list float) :=
  match n with
  | O => ret []
  | S n' =>
      x <- gumbel1 ;;
      xs <- np_random_gumbel n' ;;
      ret (x :: xs)
  end.

(** State of the generator after [k] draws from [g]. *)
Fixpoint advance (k : nat) (g : rng) : rng :=
  match k with
  | O => g
  | S k' => advance k' (snd (gumbel1 g))
  end.

(** The [k]-th variate, counted from 0, of the stream that starts in [g]. *)
Definition draw (g : rng) (k : nat) : float :=
  fst (gumbel1 (advance k g)).

End RandomOps.

(** Conversion of an int64 cell to binary64, as numpy does it when an
    integer column meets a float. *)
Definition float_of_Z (z : Z) : float :=
  match z with
  | Z0 => 0%float
  | Zpos _ => PrimFloat.of_uint63 (Uint63.of_Z z)
  | Zneg p => (- PrimFloat.of_uint63 (Uint63.of_Z (Zpos p)))%float
  end.

(** Two concrete generators, used to run the model.  The first hands out the
    position of each draw in the stream as its value.  The second hands out
    the difference of the two utilities of the first row of the notebook
    first and 0 ever after, which makes that row a tie. *)
Definition position_stream : RandomState :=
  {| rng := nat;
     seed_state := fun _ => 0;
     gumbel1 := fun p => (float_of_Z (Z.of_nat p), S p) |}.

#[local] Set Warnings "-inexact-float".

Definition tie_stream : RandomState :=
  {| rng := nat;
     seed_state := fun _ => 0;
     gumbel1 := fun p =>
       (if Nat.eqb p 0 then (-4.7 - -5.1)%float else 0%float, S p) |}.

(** ** Data model *)

(** One choice task: the row [TC1, TT1, TC2, TT2] of the [tasks] array. *)
Record task := Task { t_TC1 : Z; t_TT1 : Z; t_TC2 : Z; t_TT2 : Z }.

(** One row of [df] as built in the first code cell. *)
Record row := Row { RESP : Z; TC1 : Z; TT1 : Z; TC2 : Z; TT2 : Z }.

(** One row of the columns selected for the data file. *)
Record observation := Obs { o_row : row; CHOICE : Z }.

(** The true parameters of the DGP. *)
Record true_params := Params {
  beta_tt : float; beta_tc : float; asc1 : float; asc2 : float
}.

(** The values of the notebook. *)
Definition tasks : list task :=
  [ Task 4 35 8 25; Task 4 35 8 30; Task 6 40 7 20;
    Task 5 30 6 25; Task 5 40 7 20 ].

Definition N : nat := 200.

Definition dgp : true_params :=
  {| beta_tt := (-0.1)%float; beta_tc := (-0.4)%float;
     asc1 := 0%float; asc2 := 1%float |}.

#[local] Set Warnings "+inexact-float".

(** ** First cell: the frame of tasks and respondents *)

Definition mk_row (c : Z * task) : row :=
  let (r, t) := c in Row r (t_TC1 t) (t_TT1 t) (t_TC2 t) (t_TT2 t).

Definition build_frame (tasks : list task) (N : nat) : option (list row) :=
  let data := Np.tile tasks N in
  let resp_id := Np.repeat_each (Np.arange 1 N) (length tasks) in
  option_map (map mk_row) (Np.concatenate_axis1 resp_id data).

(** ** Second cell: utilities, error terms, choices *)

(** [a > b] on binary64: false as soon as one side is NaN. *)
Definition gtb (a b : float) : bool := (b <? a)%float.

(** Every column the cell adds to [df]; [c_CHOICE] is the float column
    before the integer cast, NaN being [None]. *)
Record columns := Columns {
  c_V1 : list float; c_V2 : list float;
  c_epsilon1 : list float; c_epsilon2 : list float;
  c_U1 : list float; c_U2 : list float;
  c_CHOICE : list (option Z)
}.

Definition V1_of (p : true_params) (r : row) : float :=
  (asc1 p + beta_tc p * float_of_Z (TC1 r)
          + beta_tt p * float_of_Z (TT1 r))%float.

Definition V2_of (p : true_params) (r : row) : float :=
  (asc2 p + beta_tc p * float_of_Z (TC2 r)
          + beta_tt p * float_of_Z (TT2 r))%float.

Definition assign_choice (U1 U2 : list float) : list (option Z) :=
  let CHOICE := repeat (@None Z) (length U1) in
  let CHOICE :=
    Np.loc_assign (Np.series_map2 gtb U1 U2) (Some 1%Z) CHOICE in
  let CHOICE :=
    Np.loc_assign (Np.series_map2 gtb U2 U1) (Some 2%Z) CHOICE in
  CHOICE.

(** The rows of [df[['RESP','TC1','TT1','TC2','TT2','CHOICE']]] after the
    cast, or [None] when the cast raises. *)
Definition select_output (df : list row) (c : columns)
  : option (list observation) :=
  option_map (Np.series_map2 Obs df) (Np.astype_int (c_CHOICE c)).

Section Generator.
Context `{RandomState}.

Definition add_columns (p : true_params) (sd : Z) (df : list row)
  : Rand (option columns) :=
  let V1 := map (V1_of p) df in
  let V2 := map (V2_of p) df in
  seeded <- np_random_seed sd ;;
  match seeded with
  | None => ret None
  | Some _ =>
      epsilon1 <- np_random_gumbel (length df) ;;
      epsilon2 <- np_random_gumbel (length df) ;;
      let U1 := Np.series_map2 PrimFloat.add V1 epsilon1 in
      let U2 := Np.series_map2 PrimFloat.add V2 epsilon2 in
      ret (Some (Columns V1 V2 epsilon1 epsilon2 U1 U2
                   (assign_choice U1 U2)))
  end.

(** Both cells in sequence. *)
Definition generate (tasks : list task) (N : nat) (p : true_params)
    (sd : Z) : Rand (option (list observation)) :=
  match build_frame tasks N with
  | None => ret None
  | Some df =>
      c <- add_columns p sd df ;;
      ret (match c with
           | Some c => select_output df c
           | None => None
           end)
  end.

(** The columns of a run in closed form over the seeded stream. *)
Definition columns_spec (p : true_params) (sd : Z) (df : list row)
  : columns :=
  let n := length df in
  let V1 := map (V1_of p) df in
  let V2 := map (V2_of p) df in
  let epsilon1 := map (draw (seed_state sd)) (seq 0 n) in
  let epsilon2 := map (draw (seed_state sd)) (seq n n) in
  let U1 := Np.series_map2 PrimFloat.add V1 epsilon1 in
  let U2 := Np.series_map2 PrimFloat.add V2 epsilon2 in
  Columns V1 V2 epsilon1 epsilon2 U1 U2 (assign_choice U1 U2).

End Generator.

(** The frame in closed form: for each respondent 1, ..., [N] in turn, the
    whole task table in its own order. *)
Definition frame_spec (tasks : list task) (N : nat) : list row :=
  flat_map (fun r => map (fun t => mk_row (r, t)) tasks)
           (map Z.of_nat (seq 1 N)).

(** What the two masked assignments leave in one cell of [CHOICE]. *)
Definition choice_of (u1 u2 : float) : option Z :=
  if gtb u2 u1 then Some 2%Z
  else if gtb u1 u2 then Some 1%Z
  else None.

(** Some row has neither utility above the other: the two are equal, or one
    of them is NaN. *)
Definition has_tie (c : columns) : bool :=
  existsb (fun u => negb (gtb (fst u) (snd u)) && negb (gtb (snd u) (fst u)))
          (Np.series_map2 pair (c_U1 c) (c_U2 c)).

(** ** The data file *)

Module Csv.
Local Open Scope string_scope.

Definition comma : ascii := ","%char.
Definition newline : ascii := "010"%char.

(** Python's [str] of an integer: decimal digits, a leading minus sign for
    negatives. *)
Definition str (z : Z) : string := NilZero.string_of_int (Z.to_int z).

Fixpoint join (sep : ascii) (fields : list string) : string :=
  match fields with
  | [] => ""
  | [f] => f
  | f :: fs => f ++ String sep (join sep fs)
  end.

Fixpoint unlines (ls : list string) : string :=
  match ls with
  | [] => ""
  | l :: ls' => l ++ String newline (unlines ls')
  end.

Definition header : list string :=
  ["RESP"; "TC1"; "TT1"; "TC2"; "TT2"; "CHOICE"].

Definition fields_of (o : observation) : list string :=
  let r := o_row o in
  map str [RESP r; TC1 r; TT1 r; TC2 r; TT2 r; CHOICE o].

(** [df[[...]].to_csv(data_path, sep=',', index=False)] on six integer
    columns: the header line, then one line per row. *)
Definition to_csv (obs : list observation) : string :=
  unlines (join comma header :: map (fun o => join comma (fields_of o)) obs).

(** Modelled from the spec: the notebook only writes the file; the reader is
    the downstream consumer of section 6 (comma-separated, header row
    present, one row per observation).  Fields are cut at the separator,
    blank lines are skipped, the header must name the six columns, every
    other line must hold six integers. *)
Fixpoint split (sep : ascii) (s : string) : list string :=
  match s with
  | "" => [""]
  | String c s' =>
      if Ascii.eqb c sep then "" :: split sep s'
      else match split sep s' with
           | f :: fs => String c f :: fs
           | [] => [String c ""]
           end
  end.

Definition parse_int (s : string) : option Z :=
  option_map Z.of_int (NilZero.int_of_string s).

Definition parse_row (l : string) : option observation :=
  match map parse_int (split comma l) with
  | [Some a; Some b; Some c; Some d; Some e; Some f] =>
      Some (Obs (Row a b c d e) f)
  | _ => None
  end.

Fixpoint parse_rows (ls : list string) : option (list observation) :=
  match ls with
  | [] => Some []
  | l :: ls' =>
      match parse_row l, parse_rows ls' with
      | Some o, Some os => Some (o :: os)
      | _, _ => None
      end
  end.

Definition nonblank (l : string) : bool :=
  match l with
  | "" => false
  | _ => true
  end.

Definition read_csv (s : string) : option (list observation) :=
  match filter nonblank (split newline s) with
  | h :: ls =>
      if list_eq_dec string_dec (split comma h) header
      then parse_rows ls else None
  | [] => None
  end.

Fixpoint has_char (c : ascii) (s : string) : bool :=
  match s with
  | "" => false
  | String a s' => Ascii.eqb a c || has_char c s'
  end.

End Csv.

(** ** The estimator

    The notebook builds expressions, hands them to the estimation library
    and reads the results.  What the library does with them is not in the
    notebook; those parts are modelled from the specification and say so. *)

Module Biogeme.
Local Open Scope string_scope.
Local Open Scope R_scope.

(** [Beta(name, value, lowerbound, upperbound, status)]: status 0 means
    estimated, status 1 means fixed to the starting value. *)
Record beta := Beta {
  b_name : string;
  b_value : R;
  b_lower : option R;
  b_upper : option R;
  b_status : Z
}.

(** The expressions the notebook builds with [Beta], [Variable], [+] and
    [*]. *)
Inductive expr :=
| EBeta (b : beta)
| EVariable (name : string)
| EPlus (a b : expr)
| ETimes (a b : expr).

(** Column lookup in the database built from the data set. *)
Definition column (name : string) (o : observation) : option Z :=
  let r := o_row o in
  if name =? "RESP" then Some (RESP r)
  else if name =? "TC1" then Some (TC1 r)
  else if name =? "TT1" then Some (TT1 r)
  else if name =? "TC2" then Some (TC2 r)
  else if name =? "TT2" then Some (TT2 r)
  else if name =? "CHOICE" then Some (CHOICE o)
  else None.

Definition lift2 (f : R -> R -> R) (a b : option R) : option R :=
  match a, b with
  | Some x, Some y => Some (f x y)
  | _, _ => None
  end.

Definition is_free (b : beta) : bool := (b_status b =? 0)%Z.

(** Modelled from the spec: evaluation belongs to the estimation library.
    Value of an expression on one row over the reals (section 3: utilities
    are real-valued), [theta] giving the current value of every estimated
    parameter; a fixed parameter keeps its starting value, as the comment of
    the notebook on [Beta] says. *)
Fixpoint eval (theta : string -> R) (o : observation) (e : expr)
  : option R :=
  match e with
  | EBeta b => Some (if is_free b then theta (b_name b) else b_value b)
  | EVariable name => option_map IZR (column name o)
  | EPlus a b => lift2 Rplus (eval theta o a) (eval theta o b)
  | ETimes a b => lift2 Rmult (eval theta o a) (eval theta o b)
  end.

(** The alternative an expression designates on one row: the notebook passes
    the integer column [CHOICE]. *)
Definition index_of (o : observation) (e : expr) : option Z :=
  match e with
  | EVariable name => column name o
  | _ => None
  end.

(** All [Beta] leaves of an expression, left to right. *)
Fixpoint betas (e : expr) : list beta :=
  match e with
  | EBeta b => [b]
  | EVariable _ => []
  | EPlus a b | ETimes a b => betas a ++ betas b
  end.

(** Insertion of a name into a list sorted by [String.leb]. *)
Fixpoint insert_name (n : string) (l : list string) : list string :=
  match l with
  | [] => [n]
  | m :: l' => if String.leb n m then n :: l else m :: insert_name n l'
  end.

Definition sort_names (l : list string) : list string :=
  fold_right insert_name [] l.

(** Modelled from the spec: the partition of the parameters into free and
    fixed is the library's (section 3: each parameter carries a flag
    indicating fixed-vs-estimated; section 4.2: the objective is maximised
    over the free ones).  The names of the parameters left to the optimiser,
    each once, in the alphabetical order in which the results list them. *)
Definition free_betas (es : list expr) : list string :=
  sort_names
    (nodup string_dec (map b_name (filter is_free (flat_map betas es)))).

Definition fixed_betas (es : list expr) : list string :=
  sort_names
    (nodup string_dec
       (map b_name
          (filter (fun b => negb (is_free b)) (flat_map betas es)))).

Fixpoint assoc {A} (k : Z) (d : list (Z * A)) : option A :=
  match d with
  | [] => None
  | (k', v) :: d' => if (k =? k')%Z then Some v else assoc k d'
  end.

(** Modelled from the spec: [models.logit(V, av, i)] belongs to the
    estimation library, not to the notebook.  Probability of alternative [i]
    given the utility of every alternative:
    [exp(V_i) / sum_j av_j * exp(V_j)], the sum running over the alternatives
    of the dictionary [V]. *)
Definition logit (V : list (Z * R)) (av : list (Z * Z)) (i : Z)
  : option R :=
  match assoc i V with
  | None => None
  | Some vi =>
      let denom :=
        fold_right
          (fun (jv : Z * R) acc =>
             match assoc (fst jv) av with
             | Some a => IZR a * exp (snd jv) + acc
             | None => acc
             end) 0 V in
      Some (exp vi / denom)
  end.

Fixpoint eval_dict (theta : string -> R) (o : observation)
    (V : list (Z * expr)) : option (list (Z * R)) :=
  match V with
  | [] => Some []
  | (k, e) :: V' =>
      match eval theta o e, eval_dict theta o V' with
      | Some v, Some r => Some ((k, v) :: r)
      | _, _ => None
      end
  end.

(** [prob = models.logit(V, av, i)] of [estimate_mnl] on one row. *)
Definition prob (V1 V2 : expr) (theta : string -> R) (o : observation)
    (i : Z) : option R :=
  let V := [(1%Z, V1); (2%Z, V2)] in
  let av := [(1%Z, 1%Z); (2%Z, 1%Z)] in
  match eval_dict theta o V with
  | Some v => logit v av i
  | None => None
  end.

(** [LL = log(prob)], the contribution of one row.  Modelled from the spec
    as to [log]: the logarithm over the reals of section 4.2. *)
Definition LL (V1 V2 CHOICE : expr) (theta : string -> R)
    (o : observation) : option R :=
  match index_of o CHOICE with
  | Some i => option_map ln (prob V1 V2 theta o i)
  | None => None
  end.

(** Modelled from the spec: the library sums the contributions (section
    4.2: the log-likelihood of the data set is the sum over observations of
    log P(chosen alternative)). *)
Fixpoint loglikelihood (V1 V2 CHOICE : expr) (theta : string -> R)
    (database : list observation) : option R :=
  match database with
  | [] => Some 0
  | o :: db => lift2 Rplus (LL V1 V2 CHOICE theta o)
                           (loglikelihood V1 V2 CHOICE theta db)
  end.

(** Modelled from the spec: the database object is the library's.  It is
    built from a data frame and refuses an empty one, so a database always
    holds a first row. *)
Record database := {
  db_name : string;
  db_first : observation;
  db_rest : list observation
}.

Definition db_rows (d : database) : list observation :=
  db_first d :: db_rest d.

(** [db.Database(name, df)] *)
Definition Database (name : string) (df : list observation)
  : option database :=
  match df with
  | [] => None
  | o :: os => Some {| db_name := name; db_first := o; db_rest := os |}
  end.

(** Modelled from the spec: the results object is the library's (section 3:
    parameter name to estimate, with the parameter count, the sample size
    and the final log-likelihood). *)
Record results := Results {
  modelName : string;
  nparam : nat;
  sample_size : nat;
  beta_values : list (string * R);
  final_loglikelihood : option R
}.

Definition start_values (es : list expr) : list (string * R) :=
  map (fun n =>
         (n, match find (fun b => b_name b =? n) (flat_map betas es) with
             | Some b => b_value b
             | None => 0
             end))
      (free_betas es).

Section Estimation.

(** Modelled from the spec: the maximiser behind [biogeme.estimate()] is an
    external capability (section 4.2); from the objective and the starting
    values of the free parameters to a value for each of them. *)
Variable maximise :
  ((string -> R) -> option R) -> list (string * R) -> string -> R.

Definition estimate_mnl (V1 V2 CHOICE : expr)
    (database : database) (model_name : string) : results :=
  let free := free_betas [V1; V2] in
  let objective :=
    fun theta => loglikelihood V1 V2 CHOICE theta (db_rows database) in
  let theta := maximise objective (start_values [V1; V2]) in
  {| modelName := model_name;
     nparam := List.length free;
     sample_size := List.length (db_rows database);
     beta_values := map (fun n => (n, theta n)) free;
     final_loglikelihood := objective theta |}.

End Estimation.

(** Cell "Create a Biogeme database": the variables. *)
Definition TT1 := EVariable "TT1".
Definition TC1 := EVariable "TC1".
Definition TT2 := EVariable "TT2".
Definition TC2 := EVariable "TC2".
Definition CHOICE := EVariable "CHOICE".

(** Cell "Define the model parameters": the model with constants. *)
Definition B_TT := Beta "B_TT" 0 None None 0.
Definition B_TC := Beta "B_TC" 0 None None 0.
Definition ASC1 := Beta "ASC1" 0 None None 1.
Definition ASC2 := Beta "ASC2" 0 None None 0.

Definition V1 : expr :=
  EPlus (EPlus (EBeta ASC1) (ETimes (EBeta B_TT) TT1))
        (ETimes (EBeta B_TC) TC1).

Definition V2 : expr :=
  EPlus (EPlus (EBeta ASC2) (ETimes (EBeta B_TT) TT2))
        (ETimes (EBeta B_TC) TC2).

(** Cell "Note there is no ASC in these utility functions". *)
Definition V1_noASC : expr :=
  EPlus (ETimes (EBeta B_TT) TT1) (ETimes (EBeta B_TC) TC1).

Definition V2_noASC : expr :=
  EPlus (ETimes (EBeta B_TT) TT2) (ETimes (EBeta B_TC) TC2).

(** A parameter vector with one entry replaced. *)
Definition override (theta : string -> R) (n : string) (x : R)
  : string -> R :=
  fun m => if m =? n then x else theta m.

End Biogeme.

(** ** Further definitions *)

(** Number of occurrences of a character in a text. *)
Fixpoint count_char (c : ascii) (s : string) : nat :=
  match s with
  | EmptyString => 0
  | String a s' => (if Ascii.eqb a c then 1 else 0) + count_char c s'
  end.

(** The two masked assignments of the second cell taken in the other
    order. *)
Definition assign_choice_swapped (U1 U2 : list float) : list (option Z) :=
  let CHOICE := repeat (@None Z) (length U1) in
  let CHOICE :=
    Np.loc_assign (Np.series_map2 gtb U2 U1) (Some 2%Z) CHOICE in
  let CHOICE :=
    Np.loc_assign (Np.series_map2 gtb U1 U2) (Some 1%Z) CHOICE in
  CHOICE.

(** [VTT = 60*(B_TT/B_TC)], the value of travel time the notebook derives
    from two coefficients, and [60*beta_tt/beta_tc], the form it prints for
    the true parameters. *)
Definition VTT (b_tt b_tc : R) : R := (60 * (b_tt / b_tc))%R.

Definition VTT_true (beta_tt beta_tc : R) : R := (60 * beta_tt / beta_tc)%R.

(** * Lemmas *)

(** ** Facts about the array primitives *)

Local Open Scope nat_scope.

Section ArrayFacts.
Variables A B C : Type.

Lemma concatenate_axis1_app (a c : list A) (b d : list B) ab cd :
  Np.concatenate_axis1 a b = Some ab ->
  Np.concatenate_axis1 c d = Some cd ->
  Np.concatenate_axis1 (a ++ c) (b ++ d) = Some (ab ++ cd).
Proof.
  revert b ab; induction a as [|x a IH]; intros [|y b] ab Hab Hcd;
    simpl in *; try discriminate.
  - injection Hab as <-; exact Hcd.
  - destruct (Np.concatenate_axis1 a b) as [r|] eqn:E; [|discriminate].
    injection Hab as <-.
    rewrite (IH b r E Hcd); reflexivity.
Qed.

Lemma concatenate_axis1_repeat (x : A) (b : list B) :
  Np.concatenate_axis1 (repeat x (length b)) b = Some (map (pair x) b).
Proof.
  induction b as [|y b IH]; simpl; [reflexivity|].
  rewrite IH; reflexivity.
Qed.

(** Gluing the repeated respondent ids to the tiled block of tasks never
    fails, and yields the blocks respondent by respondent. *)
Lemma concatenate_repeat_tile (rs : list A) (ts : list B) :
  Np.concatenate_axis1 (Np.repeat_each rs (length ts))
                       (Np.tile ts (length rs))
  = Some (flat_map (fun r => map (pair r) ts) rs).
Proof.
  unfold Np.repeat_each, Np.tile.
  induction rs as [|r rs IH]; simpl; [reflexivity|].
  apply concatenate_axis1_app; [apply concatenate_axis1_repeat | exact IH].
Qed.

Lemma series_map2_length (f : A -> B -> C) a b :
  length a = length b -> length (Np.series_map2 f a b) = length a.
Proof.
  revert b; induction a as [|x a IH]; intros [|y b] E; simpl in *;
    try discriminate; auto.
Qed.

Lemma series_map2_length_min (f : A -> B -> C) a b :
  length (Np.series_map2 f a b) = Nat.min (length a) (length b).
Proof.
  revert b; induction a as [|x a IH]; intros [|y b]; simpl; auto.
Qed.

Lemma series_map2_nth_error (f : A -> B -> C) a b k x y :
  nth_error a k = Some x -> nth_error b k = Some y ->
  nth_error (Np.series_map2 f a b) k = Some (f x y).
Proof.
  revert b k; induction a as [|x' a IH]; intros [|y' b] [|k] Hx Hy;
    simpl in *; try discriminate.
  - injection Hx as <-; injection Hy as <-; reflexivity.
  - apply IH; assumption.
Qed.

(** Position [i * |ts| + j] of a block-wise list is entry [j] of block
    [i]. *)
Lemma nth_error_blocks (f : A -> B -> C) (rs : list A) (ts : list B)
    i j r t :
  nth_error rs i = Some r -> nth_error ts j = Some t ->
  nth_error (flat_map (fun r => map (f r) ts) rs) (i * length ts + j)
  = Some (f r t).
Proof.
  revert i; induction rs as [|r' rs IH]; intros [|i] Hr Ht;
    simpl in *; try discriminate.
  - injection Hr as <-.
    rewrite nth_error_app1.
    + rewrite nth_error_map, Ht; reflexivity.
    + rewrite length_map; apply nth_error_Some; congruence.
  - rewrite nth_error_app2; rewrite length_map; [|lia].
    replace (length ts + i * length ts + j - length ts)
      with (i * length ts + j) by lia.
    apply IH; assumption.
Qed.

Lemma length_blocks (f : A -> B -> C) (rs : list A) (ts : list B) :
  length (flat_map (fun r => map (f r) ts) rs) = length rs * length ts.
Proof.
  induction rs as [|r rs IH]; simpl; [reflexivity|].
  rewrite length_app, length_map, IH; reflexivity.
Qed.

End ArrayFacts.

Lemma arange_length lo n : length (Np.arange lo n) = n.
Proof. unfold Np.arange; rewrite length_map, length_seq; reflexivity. Qed.

Lemma arange_nth_error lo n i :
  i < n -> nth_error (Np.arange lo n) i = Some (lo + Z.of_nat i)%Z.
Proof.
  intros Hi; unfold Np.arange.
  rewrite nth_error_map, nth_error_seq.
  destruct (Nat.ltb_spec i n); [reflexivity | lia].
Qed.

Lemma arange_from_1 n : Np.arange 1 n = map Z.of_nat (seq 1 n).
Proof.
  unfold Np.arange; rewrite <- seq_shift, map_map.
  apply map_ext; intros i; lia.
Qed.

Lemma build_frame_spec tasks N :
  build_frame tasks N = Some (frame_spec tasks N).
Proof.
  unfold build_frame, frame_spec; rewrite <- arange_from_1.
  pose proof (concatenate_repeat_tile (Np.arange 1 N) tasks) as E.
  rewrite arange_length in E; rewrite E; simpl.
  rewrite flat_map_concat_map, concat_map, map_map.
  rewrite flat_map_concat_map; do 2 f_equal.
  apply map_ext; intros r; rewrite map_map; reflexivity.
Qed.

Lemma frame_spec_length tasks N :
  length (frame_spec tasks N) = N * length tasks.
Proof.
  unfold frame_spec; rewrite <- arange_from_1.
  rewrite (length_blocks (fun r t => mk_row (r, t))), arange_length.
  reflexivity.
Qed.

Lemma frame_spec_nth_error tasks N i j t :
  i < N -> nth_error tasks j = Some t ->
  nth_error (frame_spec tasks N) (i * length tasks + j)
  = Some (mk_row (Z.of_nat (S i), t)).
Proof.
  intros Hi Ht; unfold frame_spec; rewrite <- arange_from_1.
  rewrite nth_error_blocks
    with (f := fun r t => mk_row (r, t)) (r := (1 + Z.of_nat i)%Z) (t := t);
    [ | apply arange_nth_error; exact Hi | exact Ht ].
  do 3 f_equal; lia.
Qed.

Lemma map_seq_from {A} (f : nat -> A) a n :
  map f (seq a n) = map (fun k => f (a + k)) (seq 0 n).
Proof.
  revert a; induction n as [|n IH]; intros a; simpl; [reflexivity|].
  rewrite Nat.add_0_r; f_equal.
  rewrite (IH (S a)), <- seq_shift, map_map.
  apply map_ext; intros k; f_equal; lia.
Qed.

(** ** Facts about the random state *)

Section RandomFacts.
Context `{RandomState}.

Lemma advance_add a b g : advance (a + b) g = advance b (advance a g).
Proof. revert g; induction a as [|a IH]; intros g; simpl; auto. Qed.

Lemma draw_advance n g k : draw (advance n g) k = draw g (n + k).
Proof. unfold draw; rewrite advance_add; reflexivity. Qed.

Lemma draw_S g k : draw (snd (gumbel1 g)) k = draw g (S k).
Proof. reflexivity. Qed.

(** A vectorised draw of size [n] returns the next [n] variates of the
    stream, in stream order, and leaves the generator [n] steps further. *)
Lemma np_random_gumbel_spec n g :
  np_random_gumbel n g = (map (draw g) (seq 0 n), advance n g).
Proof.
  revert g; induction n as [|n IH]; intros g; [reflexivity|].
  simpl np_random_gumbel; unfold bind, ret.
  destruct (gumbel1 g) as [x g'] eqn:E.
  rewrite IH; simpl; f_equal.
  - f_equal.
    + unfold draw; simpl; rewrite E; reflexivity.
    + rewrite <- seq_shift, map_map.
      apply map_ext; intros k.
      rewrite <- draw_S, E; reflexivity.
  - rewrite E; reflexivity.
Qed.

Lemma add_columns_spec p sd df g :
  seed_in_range sd = true ->
  add_columns p sd df g
  = (Some (columns_spec p sd df),
     advance (length df + length df) (seed_state sd)).
Proof.
  intros Hs.
  unfold add_columns, columns_spec, bind, ret, np_random_seed.
  rewrite Hs, !np_random_gumbel_spec, advance_add.
  replace (map (draw (advance (length df) (seed_state sd)))
             (seq 0 (length df)))
    with (map (draw (seed_state sd)) (seq (length df) (length df))).
  - reflexivity.
  - rewrite map_seq_from; apply map_ext; intros k.
    rewrite draw_advance; reflexivity.
Qed.

(** A seed out of range stops the cell before anything is drawn. *)
Lemma add_columns_bad_seed p sd df g :
  seed_in_range sd = false -> add_columns p sd df g = (None, g).
Proof.
  intros Hs; unfold add_columns, bind, ret, np_random_seed.
  rewrite Hs; reflexivity.
Qed.

End RandomFacts.

(** ** Facts about binary64 comparison *)

Lemma SFcompare_antisym (a b : spec_float) :
  SFcompare b a = option_map CompOpp (SFcompare a b).
Proof.
  destruct a as [sa|sa| |sa ma ea], b as [sb|sb| |sb mb eb];
    try destruct sa; try destruct sb; try reflexivity; simpl;
    rewrite (Z.compare_antisym ea eb);
    destruct (ea ?= eb)%Z; simpl; try reflexivity;
    rewrite (Pos.compare_cont_antisym ma mb Eq); simpl;
    try rewrite CompOpp_involutive; reflexivity.
Qed.

Lemma float_ltb_asym (a b : float) :
  (a <? b)%float = true -> (b <? a)%float = false.
Proof.
  rewrite !FloatAxioms.ltb_spec; unfold SFltb.
  rewrite (SFcompare_antisym (Prim2SF a) (Prim2SF b)).
  destruct (SFcompare (Prim2SF a) (Prim2SF b)) as [[ | | ]|];
    simpl; congruence.
Qed.

Lemma float_eqb_not_ltb (a b : float) :
  (a =? b)%float = true ->
  (a <? b)%float = false /\ (b <? a)%float = false.
Proof.
  rewrite FloatAxioms.eqb_spec, !FloatAxioms.ltb_spec; unfold SFeqb, SFltb.
  rewrite (SFcompare_antisym (Prim2SF a) (Prim2SF b)).
  destruct (SFcompare (Prim2SF a) (Prim2SF b)) as [[ | | ]|];
    simpl; intros; split; congruence.
Qed.

Lemma SFcompare_nan (a b : spec_float) :
  SFcompare a b = None -> SFcompare a a = None \/ SFcompare b b = None.
Proof.
  destruct a as [sa|sa| |sa ma ea], b as [sb|sb| |sb mb eb];
    simpl; try discriminate; auto.
Qed.

(** Two floats that are numbers are equal or strictly ordered. *)
Lemma float_trichotomy (a b : float) :
  is_nan a = false -> is_nan b = false -> (a =? b)%float = false ->
  (a <? b)%float = true \/ (b <? a)%float = true.
Proof.
  unfold is_nan.
  rewrite !negb_false_iff, !FloatAxioms.eqb_spec, !FloatAxioms.ltb_spec.
  unfold SFeqb, SFltb; intros Ha Hb Hab.
  rewrite (SFcompare_antisym (Prim2SF a) (Prim2SF b)).
  destruct (SFcompare (Prim2SF a) (Prim2SF b)) as [[ | | ]|] eqn:E;
    simpl; auto; try discriminate.
  apply SFcompare_nan in E as [E|E]; rewrite E in *; discriminate.
Qed.

(** When neither of two floats is below the other they are equal or one of
    them is not a number. *)
Lemma float_unordered (a b : float) :
  (a <? b)%float = false -> (b <? a)%float = false ->
  (a =? b)%float = true \/ is_nan a = true \/ is_nan b = true.
Proof.
  intros H1 H2.
  destruct (is_nan a) eqn:Na; [auto|].
  destruct (is_nan b) eqn:Nb; [auto|].
  destruct (a =? b)%float eqn:E; [auto|].
  destruct (@float_trichotomy a b Na Nb E); congruence.
Qed.

Lemma float_nan_not_ltb (a b : float) :
  is_nan a = true \/ is_nan b = true ->
  (a <? b)%float = false /\ (b <? a)%float = false.
Proof.
  unfold is_nan.
  rewrite !negb_true_iff, !FloatAxioms.eqb_spec, !FloatAxioms.ltb_spec.
  unfold SFeqb, SFltb.
  destruct (Prim2SF a) as [sa|sa| |sa ma ea],
           (Prim2SF b) as [sb|sb| |sb mb eb];
    simpl; try (split; reflexivity);
    intros [H|H]; exfalso; revert H;
    try destruct sa; try destruct sb; simpl;
    rewrite ?Z.compare_refl, ?Pos.compare_cont_refl; simpl; discriminate.
Qed.
(** ** Facts about the choice column *)

Lemma gtb_asym a b : gtb a b = true -> gtb b a = false.
Proof. unfold gtb; apply float_ltb_asym. Qed.

Lemma assign_choice_nth_error U1 U2 k u1 u2 :
  nth_error U1 k = Some u1 -> nth_error U2 k = Some u2 ->
  nth_error (assign_choice U1 U2) k = Some (choice_of u1 u2).
Proof.
  intros H1 H2; unfold assign_choice, Np.loc_assign.
  assert (Hk : k < length U1) by (apply nth_error_Some; congruence).
  rewrite series_map2_nth_error
    with (x := gtb u2 u1) (y := if gtb u1 u2 then Some 1%Z else None).
  - reflexivity.
  - apply series_map2_nth_error; assumption.
  - rewrite series_map2_nth_error with (x := gtb u1 u2) (y := @None Z).
    + reflexivity.
    + apply series_map2_nth_error; assumption.
    + rewrite nth_error_repeat; [reflexivity | exact Hk].
Qed.

Lemma choice_of_strict u1 u2 :
  is_nan u1 = false -> is_nan u2 = false -> (u1 =? u2)%float = false ->
  (choice_of u1 u2 = Some 1%Z /\ gtb u1 u2 = true /\ gtb u2 u1 = false) \/
  (choice_of u1 u2 = Some 2%Z /\ gtb u2 u1 = true /\ gtb u1 u2 = false).
Proof.
  intros N1 N2 Hne; unfold choice_of.
  destruct (@float_trichotomy u1 u2 N1 N2 Hne) as [Hlt|Hlt].
  - right; change (gtb u2 u1 = true) in Hlt.
    rewrite Hlt; repeat split; apply gtb_asym; exact Hlt.
  - left; change (gtb u1 u2 = true) in Hlt.
    rewrite (@gtb_asym _ _ Hlt), Hlt; repeat split.
Qed.

Lemma choice_of_tie u1 u2 :
  (u1 =? u2)%float = true -> choice_of u1 u2 = None.
Proof.
  intros E; destruct (@float_eqb_not_ltb u1 u2 E) as [H1 H2].
  unfold choice_of, gtb; rewrite H1, H2; reflexivity.
Qed.

Lemma choice_of_None u1 u2 :
  choice_of u1 u2 = None <-> gtb u1 u2 = false /\ gtb u2 u1 = false.
Proof.
  unfold choice_of; destruct (gtb u2 u1), (gtb u1 u2); split;
    try discriminate; try tauto; intros [? ?]; discriminate.
Qed.

Lemma choice_of_values u1 u2 ch :
  choice_of u1 u2 = Some ch -> ch = 1%Z \/ ch = 2%Z.
Proof.
  unfold choice_of; destruct (gtb u2 u1); [intros [= <-]; auto|].
  destruct (gtb u1 u2); [intros [= <-]; auto | discriminate].
Qed.

Lemma astype_int_nan col k :
  nth_error col k = Some None -> Np.astype_int col = None.
Proof.
  revert k; induction col as [|[z|] col IH]; intros [|k] Hk;
    simpl in *; try discriminate; try reflexivity.
  rewrite (IH k Hk); reflexivity.
Qed.

Lemma astype_int_length col zs :
  Np.astype_int col = Some zs -> length zs = length col.
Proof.
  revert zs; induction col as [|[z|] col IH]; intros zs Hc;
    simpl in *; try discriminate.
  - injection Hc as <-; reflexivity.
  - destruct (Np.astype_int col) as [r|] eqn:E; [|discriminate].
    injection Hc as <-; simpl; f_equal; apply IH; reflexivity.
Qed.

Lemma astype_int_total col :
  (forall k, nth_error col k <> Some None) ->
  exists zs, Np.astype_int col = Some zs.
Proof.
  induction col as [|[z|] col IH]; intros Hc; simpl.
  - eauto.
  - destruct IH as [zs ->]; [|eauto].
    intros k; exact (Hc (S k)).
  - exfalso; exact (Hc 0 eq_refl).
Qed.

Lemma astype_int_map col zs :
  Np.astype_int col = Some zs -> col = map Some zs.
Proof.
  revert zs; induction col as [|[z|] col IH]; intros zs Hc;
    simpl in *; try discriminate.
  - injection Hc as <-; reflexivity.
  - destruct (Np.astype_int col) as [r|] eqn:E; [|discriminate].
    injection Hc as <-; simpl; f_equal; apply IH; reflexivity.
Qed.

Lemma series_map2_nth_error_inv {A B C} (f : A -> B -> C) a b k z :
  nth_error (Np.series_map2 f a b) k = Some z ->
  exists x y, nth_error a k = Some x /\ nth_error b k = Some y /\ z = f x y.
Proof.
  revert b k; induction a as [|x a IH]; intros [|y b] [|k] Hz;
    simpl in *; try discriminate.
  - injection Hz as <-; eauto.
  - apply IH; exact Hz.
Qed.

(** ** Facts about a whole run of the generator *)

Section GeneratorFacts.
Context `{RandomState}.

Lemma generate_eq tasks N p sd g :
  seed_in_range sd = true ->
  fst (generate tasks N p sd g)
  = select_output (frame_spec tasks N)
      (columns_spec p sd (frame_spec tasks N)).
Proof.
  intros Hs; unfold generate; rewrite build_frame_spec.
  unfold bind, ret; rewrite add_columns_spec by exact Hs; reflexivity.
Qed.

(** With a seed out of range the run raises at [np.random.seed] and the
    generator keeps its state. *)
Lemma generate_bad_seed tasks N p sd g :
  seed_in_range sd = false -> generate tasks N p sd g = (None, g).
Proof.
  intros Hs; unfold generate; rewrite build_frame_spec.
  unfold bind, ret; rewrite add_columns_bad_seed by exact Hs; reflexivity.
Qed.

(** A run that returns a data set was seeded in range. *)
Lemma generate_Some_seed tasks N p sd g obs :
  fst (generate tasks N p sd g) = Some obs -> seed_in_range sd = true.
Proof.
  destruct (seed_in_range sd) eqn:Hs; [reflexivity|].
  rewrite generate_bad_seed by exact Hs; discriminate.
Qed.

Lemma columns_lengths p sd df :
  let c := columns_spec p sd df in
  length (c_epsilon1 c) = length df /\ length (c_epsilon2 c) = length df /\
  length (c_U1 c) = length df /\ length (c_U2 c) = length df.
Proof.
  simpl; rewrite !series_map2_length;
    rewrite ?length_map, ?length_seq; auto.
Qed.

Lemma assign_choice_length U1 U2 :
  length U1 = length U2 -> length (assign_choice U1 U2) = length U1.
Proof.
  intros E; unfold assign_choice, Np.loc_assign.
  rewrite !series_map2_length_min, repeat_length; lia.
Qed.

(** Each row of a successful run is the frame row with the integer value of
    its [CHOICE] cell. *)
Lemma select_output_nth_error df c obs k o :
  select_output df c = Some obs -> nth_error obs k = Some o ->
  nth_error df k = Some (o_row o) /\
  nth_error (c_CHOICE c) k = Some (Some (CHOICE o)).
Proof.
  unfold select_output; intros Hs Ho.
  destruct (Np.astype_int (c_CHOICE c)) as [zs|] eqn:E; [|discriminate].
  injection Hs as <-.
  apply series_map2_nth_error_inv in Ho as (r & z & Hr & Hz & ->).
  split; [exact Hr|].
  rewrite (astype_int_map _ E), nth_error_map, Hz; reflexivity.
Qed.

Lemma select_output_rows df c obs :
  length (c_CHOICE c) = length df ->
  select_output df c = Some obs -> map o_row obs = df.
Proof.
  unfold select_output; intros Hl Hs.
  destruct (Np.astype_int (c_CHOICE c)) as [zs|] eqn:E; [|discriminate].
  injection Hs as <-.
  apply astype_int_length in E; rewrite Hl in E; clear Hl.
  revert zs E; induction df as [|r df IH]; intros [|z zs] E;
    simpl in *; try discriminate; [reflexivity|].
  f_equal; apply IH; lia.
Qed.

Lemma columns_choice_length p sd df :
  length (c_CHOICE (columns_spec p sd df)) = length df.
Proof.
  pose proof (columns_lengths p sd df) as (_ & _ & H1 & H2).
  simpl in *; rewrite assign_choice_length; [exact H1 | congruence].
Qed.

(** The run fails exactly when some cell of [CHOICE] is still NaN at the
    cast. *)
Lemma generate_fails_on_nan tasks N p sd g k :
  seed_in_range sd = true ->
  nth_error (c_CHOICE (columns_spec p sd (frame_spec tasks N))) k
    = Some None ->
  fst (generate tasks N p sd g) = None.
Proof.
  intros Hs Hk; rewrite generate_eq by exact Hs; unfold select_output.
  rewrite (astype_int_nan _ _ Hk); reflexivity.
Qed.

Lemma generate_succeeds tasks N p sd g :
  seed_in_range sd = true ->
  (forall k, nth_error (c_CHOICE (columns_spec p sd (frame_spec tasks N))) k
             <> Some None) ->
  exists obs, fst (generate tasks N p sd g) = Some obs /\
              map o_row obs = frame_spec tasks N.
Proof.
  intros Hsd Hc; rewrite generate_eq by exact Hsd.
  destruct (astype_int_total _ Hc) as [zs E].
  exists (Np.series_map2 Obs (frame_spec tasks N) zs).
  assert (Hs : select_output (frame_spec tasks N)
                 (columns_spec p sd (frame_spec tasks N))
               = Some (Np.series_map2 Obs (frame_spec tasks N) zs))
    by (unfold select_output; rewrite E; reflexivity).
  split; [exact Hs|].
  eapply select_output_rows; [apply columns_choice_length | exact Hs].
Qed.

End GeneratorFacts.

(** ** Facts about the data file *)

Section CsvFacts.
Import Csv.
Local Open Scope string_scope.

Lemma has_char_append c a b :
  has_char c (a ++ b) = has_char c a || has_char c b.
Proof.
  induction a as [|x a IH]; simpl; [reflexivity|].
  rewrite IH, orb_assoc; reflexivity.
Qed.

Lemma split_no_sep sep s : has_char sep s = false -> split sep s = [s].
Proof.
  induction s as [|c s IH]; simpl; [reflexivity|].
  intros Hc; apply orb_false_iff in Hc as [Hc Hs].
  rewrite Hc, (IH Hs); reflexivity.
Qed.

Lemma split_append sep a b :
  has_char sep a = false ->
  split sep (a ++ String sep b) = a :: split sep b.
Proof.
  induction a as [|c a IH]; simpl.
  - intros _; rewrite Ascii.eqb_refl; reflexivity.
  - intros Hc; apply orb_false_iff in Hc as [Hc Ha].
    rewrite Hc, (IH Ha); reflexivity.
Qed.

Lemma split_join sep fs :
  fs <> [] -> Forall (fun f => has_char sep f = false) fs ->
  split sep (join sep fs) = fs.
Proof.
  induction fs as [|f fs IH]; [congruence|].
  intros _ Hf; inversion Hf as [|? ? Hf1 Hf2]; subst.
  destruct fs as [|f' fs]; [apply split_no_sep; exact Hf1|].
  change (join sep (f :: f' :: fs))
    with (f ++ String sep (join sep (f' :: fs))).
  rewrite split_append by exact Hf1.
  rewrite IH; [reflexivity | discriminate | exact Hf2].
Qed.

Lemma has_char_join c sep fs :
  Ascii.eqb sep c = false ->
  Forall (fun f => has_char c f = false) fs ->
  has_char c (join sep fs) = false.
Proof.
  intros Hsep; induction fs as [|f fs IH]; intros Hf; [reflexivity|].
  inversion Hf as [|? ? Hf1 Hf2]; subst.
  destruct fs as [|f' fs]; [exact Hf1|].
  change (join sep (f :: f' :: fs))
    with (f ++ String sep (join sep (f' :: fs))).
  rewrite has_char_append, Hf1; simpl; rewrite Hsep; simpl.
  apply IH; exact Hf2.
Qed.

Lemma split_unlines ls :
  Forall (fun l => has_char newline l = false) ls ->
  split newline (unlines ls) = (ls ++ [""])%list.
Proof.
  induction ls as [|l ls IH]; intros Hl; [reflexivity|].
  inversion Hl as [|? ? Hl1 Hl2]; subst; simpl unlines.
  rewrite split_append by exact Hl1.
  rewrite (IH Hl2); reflexivity.
Qed.

Lemma has_char_uint c d :
  (forall a, In a ["0"; "1"; "2"; "3"; "4"; "5"; "6"; "7"; "8"; "9"]%char ->
             Ascii.eqb a c = false) ->
  has_char c (NilEmpty.string_of_uint d) = false.
Proof.
  intros Hc; induction d; cbn [has_char NilEmpty.string_of_uint];
    [reflexivity | ..];
    rewrite IHd, orb_false_r; apply Hc; simpl; tauto.
Qed.

(** The characters of [str z] are digits and the minus sign. *)
Lemma has_char_str c z :
  (forall a,
      In a ["-"; "0"; "1"; "2"; "3"; "4"; "5"; "6"; "7"; "8"; "9"]%char ->
      Ascii.eqb a c = false) ->
  has_char c (str z) = false.
Proof.
  intros Hc.
  assert (Hu : forall d, has_char c (NilZero.string_of_uint d) = false).
  { intros d; destruct d; try (apply has_char_uint; intros a Ha; apply Hc;
      simpl in *; tauto).
    cbn [has_char NilZero.string_of_uint].
    rewrite orb_false_r; apply Hc; simpl; tauto. }
  unfold str; destruct (Z.to_int z) as [d|d];
    cbn [has_char NilZero.string_of_int].
  - apply Hu.
  - rewrite Hu, orb_false_r; apply Hc; simpl; tauto.
Qed.

Lemma str_no_comma z : has_char comma (str z) = false.
Proof.
  apply has_char_str; intros a Ha; simpl in Ha.
  repeat (destruct Ha as [<-|Ha]; [reflexivity|]); contradiction.
Qed.

Lemma str_no_newline z : has_char newline (str z) = false.
Proof.
  apply has_char_str; intros a Ha; simpl in Ha.
  repeat (destruct Ha as [<-|Ha]; [reflexivity|]); contradiction.
Qed.

Lemma parse_int_str z : parse_int (str z) = Some z.
Proof.
  unfold parse_int, str.
  rewrite NilZero.isi.
  - simpl; rewrite DecimalZ.of_to; reflexivity.
  - destruct z; simpl; try discriminate.
    intros [= E]; exact (DecimalPos.Unsigned.to_uint_nonnil _ E).
  - destruct z; simpl; try discriminate.
    intros [= E]; exact (DecimalPos.Unsigned.to_uint_nonnil _ E).
Qed.

Lemma parse_row_fields o : parse_row (join comma (fields_of o)) = Some o.
Proof.
  unfold parse_row; rewrite split_join.
  - unfold fields_of; simpl map; rewrite !parse_int_str.
    destruct o as [[a b c d e] f]; reflexivity.
  - discriminate.
  - unfold fields_of; simpl map.
    repeat constructor; apply str_no_comma.
Qed.

Lemma line_no_newline o :
  has_char newline (join comma (fields_of o)) = false.
Proof.
  apply has_char_join; [reflexivity|].
  unfold fields_of; simpl map; repeat constructor; apply str_no_newline.
Qed.

Lemma line_nonblank o : nonblank (join comma (fields_of o)) = true.
Proof.
  unfold fields_of; simpl.
  destruct (str (RESP (o_row o))) eqn:E; [|reflexivity].
  exfalso; revert E; unfold str.
  destruct (Z.to_int (RESP (o_row o))) as [d|d]; simpl; [|discriminate].
  destruct d; simpl; discriminate.
Qed.

Lemma parse_rows_lines obs :
  parse_rows (map (fun o => join comma (fields_of o)) obs) = Some obs.
Proof.
  induction obs as [|o obs IH]; cbn [map parse_rows]; [reflexivity|].
  rewrite parse_row_fields, IH; reflexivity.
Qed.

Lemma filter_nonblank_lines obs :
  filter nonblank (map (fun o => join comma (fields_of o)) obs ++ [""])%list
  = map (fun o => join comma (fields_of o)) obs.
Proof.
  induction obs as [|o obs IH]; cbn [map app filter]; [reflexivity|].
  rewrite line_nonblank, IH; reflexivity.
Qed.

Lemma read_csv_to_csv obs : read_csv (to_csv obs) = Some obs.
Proof.
  unfold read_csv, to_csv.
  rewrite split_unlines.
  - change ((join comma header
              :: map (fun o => join comma (fields_of o)) obs) ++ [""])%list
      with (join comma header
              :: (map (fun o => join comma (fields_of o)) obs ++ [""]))%list.
    cbn [filter]. change (nonblank (join comma header)) with true.
    cbv iota. rewrite filter_nonblank_lines.
    change (split comma (join comma header)) with header.
    destruct (list_eq_dec string_dec header header) as [_|Hn];
      [apply parse_rows_lines | congruence].
  - constructor; [reflexivity|].
    apply Forall_forall; intros l Hl.
    apply in_map_iff in Hl as (o & <- & _); apply line_no_newline.
Qed.

End CsvFacts.

(** ** Ties and the success of a run *)

Lemma tie_exists U1 U2 :
  existsb (fun u => negb (gtb (fst u) (snd u)) && negb (gtb (snd u) (fst u)))
          (Np.series_map2 pair U1 U2) = true <->
  exists k u1 u2,
    nth_error U1 k = Some u1 /\ nth_error U2 k = Some u2 /\
    gtb u1 u2 = false /\ gtb u2 u1 = false.
Proof.
  rewrite existsb_exists; split.
  - intros ([u1 u2] & Hin & He).
    apply In_nth_error in Hin as [k Hk].
    apply series_map2_nth_error_inv in Hk as (x & y & Hx & Hy & E).
    injection E as -> ->.
    apply andb_true_iff in He as [H1 H2].
    apply negb_true_iff in H1, H2.
    exists k, x, y; repeat split; auto.
  - intros (k & u1 & u2 & H1 & H2 & E1 & E2).
    exists (u1, u2); split.
    + apply nth_error_In with (n := k).
      apply series_map2_nth_error; assumption.
    + cbn [fst snd]; rewrite E1, E2; reflexivity.
Qed.

Section TieFacts.
Context `{RandomState}.

Lemma choice_nan_is_tie p sd df k :
  nth_error (c_CHOICE (columns_spec p sd df)) k = Some None ->
  has_tie (columns_spec p sd df) = true.
Proof.
  intros Hk; unfold has_tie; apply tie_exists.
  pose proof (columns_lengths p sd df) as (_ & _ & L1 & L2).
  assert (Hlt : k < length df).
  { rewrite <- (columns_choice_length p sd df).
    apply nth_error_Some; congruence. }
  destruct (nth_error (c_U1 (columns_spec p sd df)) k) as [u1|] eqn:E1;
    [|apply nth_error_None in E1; lia].
  destruct (nth_error (c_U2 (columns_spec p sd df)) k) as [u2|] eqn:E2;
    [|apply nth_error_None in E2; lia].
  exists k, u1, u2; split; [exact E1|]; split; [exact E2|].
  change (c_CHOICE (columns_spec p sd df))
    with (assign_choice (c_U1 (columns_spec p sd df))
                        (c_U2 (columns_spec p sd df))) in Hk.
  rewrite (assign_choice_nth_error _ _ _ E1 E2) in Hk.
  injection Hk as Hk; apply choice_of_None; exact Hk.
Qed.

(** A seeded run succeeds exactly when no row is a tie. *)
Lemma generate_without_tie tasks N p sd g :
  seed_in_range sd = true ->
  has_tie (columns_spec p sd (frame_spec tasks N)) = false ->
  exists obs, fst (generate tasks N p sd g) = Some obs /\
              map o_row obs = frame_spec tasks N.
Proof.
  intros Hs Ht; apply generate_succeeds; [exact Hs|].
  intros k Hk; apply choice_nan_is_tie in Hk; congruence.
Qed.

Lemma generate_with_tie tasks N p sd g :
  seed_in_range sd = true ->
  has_tie (columns_spec p sd (frame_spec tasks N)) = true ->
  fst (generate tasks N p sd g) = None.
Proof.
  intros Hs Ht.
  apply tie_exists in Ht as (k & u1 & u2 & H1 & H2 & E1 & E2).
  apply generate_fails_on_nan with (k := k); [exact Hs|].
  change (c_CHOICE (columns_spec p sd (frame_spec tasks N)))
    with (assign_choice (c_U1 (columns_spec p sd (frame_spec tasks N)))
                        (c_U2 (columns_spec p sd (frame_spec tasks N)))).
  rewrite (assign_choice_nth_error _ _ _ H1 H2).
  f_equal; apply choice_of_None; auto.
Qed.

End TieFacts.

(** ** Facts about the estimator *)

Section EstimatorFacts.
Local Open Scope R_scope.
Local Open Scope string_scope.

Lemma prob_formula (e1 e2 : Biogeme.expr) theta o v1 v2 :
  Biogeme.eval theta o e1 = Some v1 ->
  Biogeme.eval theta o e2 = Some v2 ->
  Biogeme.prob e1 e2 theta o 1 = Some (exp v1 / (exp v1 + exp v2)) /\
  Biogeme.prob e1 e2 theta o 2 = Some (exp v2 / (exp v1 + exp v2)).
Proof.
  intros E1 E2; unfold Biogeme.prob; cbn [Biogeme.eval_dict].
  rewrite E1, E2; unfold Biogeme.logit.
  cbn [Biogeme.assoc fold_right fst snd Z.eqb Pos.eqb].
  split; do 2 f_equal; lra.
Qed.

Lemma logit_sum_one (v1 v2 : R) :
  exp v1 / (exp v1 + exp v2) + exp v2 / (exp v1 + exp v2) = 1.
Proof.
  pose proof (exp_pos v1); pose proof (exp_pos v2).
  field; lra.
Qed.

(** The utilities of the two models, row by row. *)
Lemma eval_V1 theta o :
  Biogeme.eval theta o Biogeme.V1
  = Some (0 + theta "B_TT" * IZR (TT1 (o_row o))
            + theta "B_TC" * IZR (TC1 (o_row o))).
Proof. reflexivity. Qed.

Lemma eval_V2 theta o :
  Biogeme.eval theta o Biogeme.V2
  = Some (theta "ASC2" + theta "B_TT" * IZR (TT2 (o_row o))
                       + theta "B_TC" * IZR (TC2 (o_row o))).
Proof. reflexivity. Qed.

Lemma eval_V1_noASC theta o :
  Biogeme.eval theta o Biogeme.V1_noASC
  = Some (theta "B_TT" * IZR (TT1 (o_row o))
          + theta "B_TC" * IZR (TC1 (o_row o))).
Proof. reflexivity. Qed.

Lemma eval_V2_noASC theta o :
  Biogeme.eval theta o Biogeme.V2_noASC
  = Some (theta "B_TT" * IZR (TT2 (o_row o))
          + theta "B_TC" * IZR (TC2 (o_row o))).
Proof. reflexivity. Qed.

(** The model without constants is the model with constants at ASC2 = 0:
    both give every row the same probabilities, hence the same
    log-likelihood. *)
Lemma prob_noASC_restricts theta o i :
  Biogeme.prob Biogeme.V1_noASC Biogeme.V2_noASC theta o i
  = Biogeme.prob Biogeme.V1 Biogeme.V2
      (Biogeme.override theta "ASC2" 0) o i.
Proof.
  unfold Biogeme.prob; cbn [Biogeme.eval_dict].
  rewrite eval_V1_noASC, eval_V2_noASC, eval_V1, eval_V2.
  unfold Biogeme.override; cbn [String.eqb Ascii.eqb Bool.eqb].
  rewrite !Rplus_0_l; reflexivity.
Qed.

Lemma loglikelihood_noASC_restricts theta database :
  Biogeme.loglikelihood Biogeme.V1_noASC Biogeme.V2_noASC Biogeme.CHOICE
    theta database
  = Biogeme.loglikelihood Biogeme.V1 Biogeme.V2 Biogeme.CHOICE
      (Biogeme.override theta "ASC2" 0) database.
Proof.
  induction database as [|o db IH]; [reflexivity|].
  cbn [Biogeme.loglikelihood]; rewrite IH; f_equal.
  unfold Biogeme.LL; destruct (Biogeme.index_of o Biogeme.CHOICE);
    [|reflexivity].
  rewrite prob_noASC_restricts; reflexivity.
Qed.

End EstimatorFacts.

(** * The generator *)

(** C1, as the specification words it, fails: the two vectorised calls of
    [np.random.gumbel] take the stream column by column.  With the generator
    that hands out stream positions, on the inputs of the notebook, the first
    observation would get positions 0 and 1 if the draws were interleaved; it
    gets 0 for epsilon1 and 1000 for epsilon2. *)
Lemma C1_interleaved_order_fails :
  ~ (forall df c i j,
        build_frame tasks N = Some df ->
        fst (@add_columns position_stream dgp 42 df 0) = Some c ->
        i < N -> j < length tasks ->
        let k := i * length tasks + j in
        nth_error (c_epsilon1 c) k
          = Some (@draw position_stream (seed_state 42) (2 * k)) /\
        nth_error (c_epsilon2 c) k
          = Some (@draw position_stream (seed_state 42) (2 * k + 1))).
Proof.
  intros Hc.
  destruct (Hc (frame_spec tasks N)
               (@columns_spec position_stream dgp 42 (frame_spec tasks N))
               0 0 (build_frame_spec tasks N))
    as [_ H2];
    [rewrite add_columns_spec by reflexivity; reflexivity
    | unfold N; lia | simpl; lia |].
  apply (f_equal (fun o => match o with
                           | Some x => (x <? 2)%float
                           | None => false
                           end)) in H2.
  vm_compute in H2; discriminate H2.
Qed.

(** C1 (amended): after seeding, the generator draws the whole column
    epsilon1 first and the whole column epsilon2 next.  The observation of
    respondent [i + 1] and task [j], at row [k = i * T + j], gets variate [k]
    of the seeded stream as epsilon1 and variate [N * T + k] as epsilon2;
    within each column the draws follow ascending respondent and task
    order. *)
Theorem C1_draws_column_by_column `{RandomState}
    (tasks : list task) (N : nat) (p : true_params) (sd : Z) (g : rng)
    (df : list row) (i j : nat) :
  build_frame tasks N = Some df ->
  seed_in_range sd = true ->
  i < N -> j < length tasks ->
  let k := i * length tasks + j in
  exists c,
    fst (add_columns p sd df g) = Some c /\
    nth_error (c_epsilon1 c) k = Some (draw (seed_state sd) k) /\
    nth_error (c_epsilon2 c) k
      = Some (draw (seed_state sd) (N * length tasks + k)).
Proof.
  intros Hdf Hs Hi Hj k.
  rewrite build_frame_spec in Hdf; injection Hdf as <-.
  assert (Hk : k < N * length tasks) by (unfold k; nia).
  exists (columns_spec p sd (frame_spec tasks N)).
  split; [rewrite add_columns_spec by exact Hs; reflexivity|].
  cbn [columns_spec c_epsilon1 c_epsilon2]; rewrite frame_spec_length.
  rewrite !nth_error_map, !nth_error_seq.
  destruct (Nat.ltb_spec k (N * length tasks)); [|lia].
  split; reflexivity.
Qed.

Lemma C1_draws_column_by_column_witness :
  exists c,
    fst (@add_columns position_stream dgp 42 (frame_spec tasks 2) 0)
      = Some c /\
    nth_error (c_epsilon1 c) 6
      = Some (@draw position_stream (seed_state 42) 6) /\
    nth_error (c_epsilon2 c) 6
      = Some (@draw position_stream (seed_state 42) 16).
Proof.
  apply (@C1_draws_column_by_column position_stream tasks 2 dgp 42 0
           (frame_spec tasks 2) 1 1).
  - reflexivity.
  - reflexivity.
  - lia.
  - simpl; lia.
Defined.

#[local] Set Warnings "-inexact-float".



#[local] Set Warnings "+inexact-float".


(** C3: the output of a run is fixed by (tasks, N, true parameters, seed).
    Whatever state the process-wide generator is in when the cells start,
    the observations, and so the text of the data file, are the same; in
    particular a second run in the state the first one leaves behind
    repeats the first. *)
Theorem C3_generator_deterministic `{RandomState}
    (tasks : list task) (N : nat) (p : true_params) (sd : Z)
    (g1 g2 : rng) :
  fst (generate tasks N p sd g1) = fst (generate tasks N p sd g2) /\
  option_map Csv.to_csv (fst (generate tasks N p sd g1))
    = option_map Csv.to_csv (fst (generate tasks N p sd g2)) /\
  fst (generate tasks N p sd (snd (generate tasks N p sd g1)))
    = fst (generate tasks N p sd g1).
Proof.
  destruct (seed_in_range sd) eqn:Hs.
  - rewrite !generate_eq by exact Hs; repeat split; reflexivity.
  - rewrite !generate_bad_seed by exact Hs; repeat split; reflexivity.
Qed.

(** C4: in a row whose total utilities are numbers and differ, the cell of
    [CHOICE] holds exactly one of 1 and 2: it is 1 exactly when U1 > U2 and
    2 exactly when U2 > U1; the observation a successful run returns for
    that row carries this value. *)
Theorem C4_choice_is_strict_argmax `{RandomState}
    (tasks : list task) (N : nat) (p : true_params) (sd : Z) (g : rng)
    (df : list row) (c : columns) (k : nat) (u1 u2 : float) :
  build_frame tasks N = Some df ->
  fst (add_columns p sd df g) = Some c ->
  nth_error (c_U1 c) k = Some u1 ->
  nth_error (c_U2 c) k = Some u2 ->
  is_nan u1 = false -> is_nan u2 = false ->
  (u1 =? u2)%float = false ->
  exists ch,
    nth_error (c_CHOICE c) k = Some (Some ch) /\
    ((ch = 1%Z /\ ch <> 2%Z) \/ (ch = 2%Z /\ ch <> 1%Z)) /\
    (ch = 1%Z <-> gtb u1 u2 = true) /\
    (ch = 2%Z <-> gtb u2 u1 = true) /\
    (forall obs o,
        fst (generate tasks N p sd g) = Some obs ->
        nth_error obs k = Some o -> CHOICE o = ch).
Proof.
  intros Hdf Hc H1 H2 N1 N2 Hne.
  rewrite build_frame_spec in Hdf; injection Hdf as <-.
  assert (Hs : seed_in_range sd = true).
  { destruct (seed_in_range sd) eqn:Hs; [reflexivity|].
    rewrite add_columns_bad_seed in Hc by exact Hs; discriminate. }
  rewrite add_columns_spec in Hc by exact Hs; injection Hc as <-.
  set (c := columns_spec p sd (frame_spec tasks N)) in *.
  assert (Hch : nth_error (c_CHOICE c) k = Some (choice_of u1 u2))
    by (apply assign_choice_nth_error; assumption).
  assert (Hout : forall ch, choice_of u1 u2 = Some ch ->
            forall obs o,
              fst (generate tasks N p sd g) = Some obs ->
              nth_error obs k = Some o -> CHOICE o = ch).
  { intros ch Hv obs o Hg Ho; rewrite generate_eq in Hg by exact Hs.
    destruct (select_output_nth_error _ _ _ Hg Ho) as [_ Hk].
    fold c in Hk; rewrite Hch, Hv in Hk; congruence. }
  destruct (choice_of_strict N1 N2 Hne)
    as [(Hv & Hgt & Hngt)|(Hv & Hgt & Hngt)].
  - exists 1%Z; rewrite Hch, Hv.
    split; [reflexivity|].
    split; [left; split; [reflexivity | discriminate]|].
    split; [tauto|].
    split; [split; [discriminate | congruence]|].
    apply Hout; exact Hv.
  - exists 2%Z; rewrite Hch, Hv.
    split; [reflexivity|].
    split; [right; split; [reflexivity | discriminate]|].
    split; [split; [discriminate | congruence]|].
    split; [tauto|].
    apply Hout; exact Hv.
Qed.

Lemma C4_choice_is_strict_argmax_witness :
  let c := @columns_spec position_stream dgp 42 (frame_spec tasks 2) in
  let u1 := (V1_of dgp (Row 1 5 40 7 20) + 4)%float in
  let u2 := (V2_of dgp (Row 1 5 40 7 20) + 14)%float in
  exists ch,
    nth_error (c_CHOICE c) 4 = Some (Some ch) /\
    ((ch = 1%Z /\ ch <> 2%Z) \/ (ch = 2%Z /\ ch <> 1%Z)) /\
    (ch = 1%Z <-> gtb u1 u2 = true) /\
    (ch = 2%Z <-> gtb u2 u1 = true) /\
    (forall obs o,
        fst (@generate position_stream tasks 2 dgp 42 0) = Some obs ->
        nth_error obs 4 = Some o -> CHOICE o = ch).
Proof.
  intros c u1 u2.
  apply (@C4_choice_is_strict_argmax position_stream tasks 2 dgp 42 0
           (frame_spec tasks 2) c 4 u1 u2).
  - reflexivity.
  - reflexivity.
  - vm_compute; reflexivity.
  - vm_compute; reflexivity.
  - vm_compute; reflexivity.
  - vm_compute; reflexivity.
  - vm_compute; reflexivity.
Defined.

(** C5: in a row whose total utilities are equal neither masked assignment
    fires, so the cell of [CHOICE] stays NaN, neither 1 nor 2; the integer
    cast then raises and the run returns no data set at all, rather than a
    row with a default alternative. *)
Theorem C5_tie_leaves_choice_undefined `{RandomState}
    (tasks : list task) (N : nat) (p : true_params) (sd : Z) (g : rng)
    (df : list row) (c : columns) (k : nat) (u1 u2 : float) :
  build_frame tasks N = Some df ->
  fst (add_columns p sd df g) = Some c ->
  nth_error (c_U1 c) k = Some u1 ->
  nth_error (c_U2 c) k = Some u2 ->
  (u1 =? u2)%float = true ->
  nth_error (c_CHOICE c) k = Some None /\
  nth_error (c_CHOICE c) k <> Some (Some 1%Z) /\
  nth_error (c_CHOICE c) k <> Some (Some 2%Z) /\
  fst (generate tasks N p sd g) = None.
Proof.
  intros Hdf Hc H1 H2 E.
  rewrite build_frame_spec in Hdf; injection Hdf as <-.
  assert (Hs : seed_in_range sd = true).
  { destruct (seed_in_range sd) eqn:Hs; [reflexivity|].
    rewrite add_columns_bad_seed in Hc by exact Hs; discriminate. }
  rewrite add_columns_spec in Hc by exact Hs; injection Hc as <-.
  assert (Hch : nth_error
                  (c_CHOICE (columns_spec p sd (frame_spec tasks N))) k
                = Some None).
  { rewrite <- (choice_of_tie E).
    apply assign_choice_nth_error; assumption. }
  rewrite Hch; repeat split; try discriminate.
  apply generate_fails_on_nan with (k := k); assumption.
Qed.

#[local] Set Warnings "-inexact-float".

(** The tie of the witness is a tie of binary64: the first variate is the
    float [-4.7 - -5.1], and [-5.1] plus that float is the float [-4.7]. *)
Lemma C5_tie_leaves_choice_undefined_witness :
  let c := @columns_spec tie_stream dgp 42 (frame_spec tasks N) in
  nth_error (c_U1 c) 0 = Some (-4.7)%float /\
  nth_error (c_U2 c) 0 = Some (-4.7)%float /\
  nth_error (c_CHOICE c) 0 = Some None /\
  nth_error (c_CHOICE c) 0 <> Some (Some 1%Z) /\
  nth_error (c_CHOICE c) 0 <> Some (Some 2%Z) /\
  fst (@generate tie_stream tasks N dgp 42 0) = None.
Proof.
  intros c.
  assert (H1 : nth_error (c_U1 c) 0 = Some (-4.7)%float)
    by (vm_compute; reflexivity).
  assert (H2 : nth_error (c_U2 c) 0 = Some (-4.7)%float)
    by (vm_compute; reflexivity).
  split; [exact H1|]; split; [exact H2|].
  apply (@C5_tie_leaves_choice_undefined tie_stream tasks N dgp 42 0
           (frame_spec tasks N) c 0 (-4.7)%float (-4.7)%float).
  - apply build_frame_spec.
  - rewrite add_columns_spec by reflexivity; reflexivity.
  - exact H1.
  - exact H2.
  - vm_compute; reflexivity.
Defined.

#[local] Set Warnings "+inexact-float".

(** C7: the observations a run returns survive the data file: written with
    [to_csv] (header row, comma-separated columns RESP, TC1, TT1, TC2, TT2,
    CHOICE) and read back, they come out the same, in the same order. *)
Theorem C7_csv_round_trip `{RandomState}
    (tasks : list task) (N : nat) (p : true_params) (sd : Z) (g : rng)
    (obs : list observation) :
  fst (generate tasks N p sd g) = Some obs ->
  Csv.read_csv (Csv.to_csv obs) = Some obs.
Proof.
  intros _; apply read_csv_to_csv.
Qed.

Lemma C7_csv_round_trip_witness :
  exists obs,
    fst (@generate position_stream tasks 2 dgp 42 0) = Some obs /\
    Csv.read_csv (Csv.to_csv obs) = Some obs.
Proof.
  eexists; split.
  - vm_compute; reflexivity.
  - apply (@C7_csv_round_trip position_stream tasks 2 dgp 42 0).
    vm_compute; reflexivity.
Defined.

(** C8: a successful run returns one observation per (respondent, task)
    pair, respondent by respondent for respondents 1, ..., N, and within a
    respondent task by task in the order of the task table: row
    [i * T + j] is respondent [i + 1] on task [j]. *)
Theorem C8_rows_by_respondent_then_task `{RandomState}
    (tasks : list task) (N : nat) (p : true_params) (sd : Z) (g : rng)
    (obs : list observation) :
  fst (generate tasks N p sd g) = Some obs ->
  build_frame tasks N = Some (map o_row obs) /\
  map o_row obs
    = flat_map (fun r => map (fun t => mk_row (r, t)) tasks)
               (map Z.of_nat (seq 1 N)) /\
  length obs = N * length tasks /\
  (forall i j t,
      i < N -> nth_error tasks j = Some t ->
      exists o,
        nth_error obs (i * length tasks + j) = Some o /\
        o_row o = Row (Z.of_nat (S i))
                      (t_TC1 t) (t_TT1 t) (t_TC2 t) (t_TT2 t)).
Proof.
  intros Hg; pose proof (generate_Some_seed _ _ _ _ _ Hg) as Hs.
  rewrite generate_eq in Hg by exact Hs.
  assert (Hr : map o_row obs = frame_spec tasks N)
    by (eapply select_output_rows;
        [apply columns_choice_length | exact Hg]).
  split; [rewrite Hr; apply build_frame_spec|].
  split; [exact Hr|].
  split; [rewrite <- (length_map o_row), Hr; apply frame_spec_length|].
  intros i j t Hi Ht.
  pose proof (@frame_spec_nth_error tasks N i j t Hi Ht) as Hk.
  rewrite <- Hr, nth_error_map in Hk.
  destruct (nth_error obs (i * length tasks + j)) as [o|];
    [|discriminate].
  exists o; split; [reflexivity|].
  injection Hk as ->; reflexivity.
Qed.

Lemma C8_rows_by_respondent_then_task_witness :
  exists obs,
    fst (@generate position_stream tasks 2 dgp 42 0) = Some obs /\
    map o_row obs
      = [ Row 1 4 35 8 25; Row 1 4 35 8 30; Row 1 6 40 7 20;
          Row 1 5 30 6 25; Row 1 5 40 7 20;
          Row 2 4 35 8 25; Row 2 4 35 8 30; Row 2 6 40 7 20;
          Row 2 5 30 6 25; Row 2 5 40 7 20 ].
Proof.
  eexists; split.
  - vm_compute; reflexivity.
  - apply (@C8_rows_by_respondent_then_task position_stream tasks 2 dgp 42
             0).
    vm_compute; reflexivity.
Defined.

(** * The estimator *)

Section EstimatorClaims.
Local Open Scope R_scope.
Local Open Scope string_scope.

Lemma loglikelihood_ignores_ASC1 theta x database :
  Biogeme.loglikelihood Biogeme.V1 Biogeme.V2 Biogeme.CHOICE
    (Biogeme.override theta "ASC1" x) database
  = Biogeme.loglikelihood Biogeme.V1 Biogeme.V2 Biogeme.CHOICE
      theta database.
Proof.
  induction database as [|o db IH]; [reflexivity|].
  cbn [Biogeme.loglikelihood]; rewrite IH; reflexivity.
Qed.

Lemma logit_shift (c v1 v2 : R) (i : Z) :
  Biogeme.logit [(1%Z, v1 + c); (2%Z, v2 + c)] [(1%Z, 1%Z); (2%Z, 1%Z)] i
  = Biogeme.logit [(1%Z, v1); (2%Z, v2)] [(1%Z, 1%Z); (2%Z, 1%Z)] i.
Proof.
  unfold Biogeme.logit.
  cbn [Biogeme.assoc fold_right fst snd Z.eqb Pos.eqb].
  pose proof (exp_pos v1); pose proof (exp_pos v2); pose proof (exp_pos c).
  destruct (i =? 1)%Z; [f_equal; rewrite !exp_plus; field; nra|].
  destruct (i =? 2)%Z; [f_equal; rewrite !exp_plus; field; nra|].
  reflexivity.
Qed.

(** C6: for every pair of real utilities the two logit probabilities are
    exp(V1) / (exp(V1) + exp(V2)) and exp(V2) / (exp(V1) + exp(V2)), and
    they add up to 1; so do the probabilities [estimate_mnl] forms on every
    row, for every value of the parameters, in the model with constants and
    in the model without. *)
Theorem C6_logit_probabilities_sum_to_one (v1 v2 : R) :
  (exists p1 p2,
      Biogeme.logit [(1%Z, v1); (2%Z, v2)] [(1%Z, 1%Z); (2%Z, 1%Z)] 1
        = Some p1 /\
      Biogeme.logit [(1%Z, v1); (2%Z, v2)] [(1%Z, 1%Z); (2%Z, 1%Z)] 2
        = Some p2 /\
      p1 = exp v1 / (exp v1 + exp v2) /\
      p2 = exp v2 / (exp v1 + exp v2) /\
      p1 + p2 = 1) /\
  (forall theta o, exists p1 p2,
      Biogeme.prob Biogeme.V1 Biogeme.V2 theta o 1 = Some p1 /\
      Biogeme.prob Biogeme.V1 Biogeme.V2 theta o 2 = Some p2 /\
      p1 + p2 = 1) /\
  (forall theta o, exists p1 p2,
      Biogeme.prob Biogeme.V1_noASC Biogeme.V2_noASC theta o 1 = Some p1 /\
      Biogeme.prob Biogeme.V1_noASC Biogeme.V2_noASC theta o 2 = Some p2 /\
      p1 + p2 = 1).
Proof.
  split; [|split].
  - exists (exp v1 / (exp v1 + exp v2)), (exp v2 / (exp v1 + exp v2)).
    unfold Biogeme.logit.
    cbn [Biogeme.assoc fold_right fst snd Z.eqb Pos.eqb].
    repeat split; try (do 2 f_equal; lra).
    apply logit_sum_one.
  - intros theta o.
    destruct (prob_formula Biogeme.V1 Biogeme.V2 theta o
                (eval_V1 theta o) (eval_V2 theta o)) as [P1 P2].
    do 2 eexists; split; [exact P1|]; split; [exact P2|].
    apply logit_sum_one.
  - intros theta o.
    destruct (prob_formula Biogeme.V1_noASC Biogeme.V2_noASC theta o
                (eval_V1_noASC theta o) (eval_V2_noASC theta o))
      as [P1 P2].
    do 2 eexists; split; [exact P1|]; split; [exact P2|].
    apply logit_sum_one.
Qed.

(** C10: in the model with constants ASC1 is declared with value 0 and
    status 1 (fixed), so the free parameters are exactly ASC2, B_TC and B_TT,
    three of them, listed in that order as in the results of the notebook.
    [estimate_mnl] keeps it that way: it reports three parameters and an
    estimate for just these three, ASC1 evaluates to 0 whatever vector the
    maximiser tries, and the log-likelihood does not depend on an ASC1 entry
    of that vector.  The normalisation is needed: adding one constant to
    both utilities leaves every probability unchanged. *)
Theorem C10_ASC1_fixed_three_free_parameters :
  Biogeme.b_status Biogeme.ASC1 = 1%Z /\
  Biogeme.b_value Biogeme.ASC1 = 0 /\
  (forall n, In n (Biogeme.fixed_betas [Biogeme.V1; Biogeme.V2])
             <-> n = "ASC1") /\
  (forall n, In n (Biogeme.free_betas [Biogeme.V1; Biogeme.V2])
             <-> n = "B_TT" \/ n = "B_TC" \/ n = "ASC2") /\
  Biogeme.free_betas [Biogeme.V1; Biogeme.V2] = ["ASC2"; "B_TC"; "B_TT"] /\
  (forall maximise database model_name,
      let r := Biogeme.estimate_mnl maximise Biogeme.V1 Biogeme.V2
                 Biogeme.CHOICE database model_name in
      Biogeme.nparam r = 3%nat /\
      map fst (Biogeme.beta_values r) = ["ASC2"; "B_TC"; "B_TT"]) /\
  (forall theta o,
      Biogeme.eval theta o (Biogeme.EBeta Biogeme.ASC1) = Some 0) /\
  (forall theta x database,
      Biogeme.loglikelihood Biogeme.V1 Biogeme.V2 Biogeme.CHOICE
        (Biogeme.override theta "ASC1" x) database
      = Biogeme.loglikelihood Biogeme.V1 Biogeme.V2 Biogeme.CHOICE
          theta database) /\
  (forall c v1 v2 i,
      Biogeme.logit [(1%Z, v1 + c); (2%Z, v2 + c)]
                    [(1%Z, 1%Z); (2%Z, 1%Z)] i
      = Biogeme.logit [(1%Z, v1); (2%Z, v2)]
                      [(1%Z, 1%Z); (2%Z, 1%Z)] i).
Proof.
  assert (Hfree : Biogeme.free_betas [Biogeme.V1; Biogeme.V2]
                  = ["ASC2"; "B_TC"; "B_TT"]) by reflexivity.
  assert (Hfixed : Biogeme.fixed_betas [Biogeme.V1; Biogeme.V2]
                   = ["ASC1"]) by reflexivity.
  split; [reflexivity|].
  split; [reflexivity|].
  split.
  { intros n; rewrite Hfixed; cbn [In]; split;
      [intros [E|[]]; subst; reflexivity | intros E; subst; auto]. }
  split.
  { intros n; rewrite Hfree; cbn [In]; split.
    - intros [E|[E|[E|[]]]]; subst; auto.
    - intros [E|[E|E]]; subst; auto. }
  split; [exact Hfree|].
  split; [intros maximise database model_name; split; reflexivity|].
  split; [reflexivity|].
  split; [apply loglikelihood_ignores_ASC1 | apply logit_shift].
Qed.

(** Towards C9.  Whatever the maximiser returns for the model without
    constants, the model with constants has the same log-likelihood at that
    vector extended with ASC2 = 0: the second model can do no worse than the
    first.  Whether it does strictly better on the data of the notebook
    depends on the variates numpy draws and on the maximiser's output. *)
Lemma final_loglikelihood_noASC_reachable maximise database name :
  exists theta,
    Biogeme.final_loglikelihood
      (Biogeme.estimate_mnl maximise Biogeme.V1_noASC Biogeme.V2_noASC
         Biogeme.CHOICE database name)
    = Biogeme.loglikelihood Biogeme.V1 Biogeme.V2 Biogeme.CHOICE
        (Biogeme.override theta "ASC2" 0) (Biogeme.db_rows database).
Proof.
  eexists; cbn [Biogeme.estimate_mnl Biogeme.final_loglikelihood].
  apply loglikelihood_noASC_restricts.
Qed.

End EstimatorClaims.

(** * Further properties of the generator *)

(** X1: a run raises exactly when the seed is outside the range numpy
    accepts or some row has total utilities that are equal in binary64 or
    not numbers; in every other case it returns a data set. *)
Theorem X1_run_fails_exactly_on_ties `{RandomState}
    (tasks : list task) (N : nat) (p : true_params) (sd : Z) (g : rng)
    (df : list row) :
  build_frame tasks N = Some df ->
  fst (generate tasks N p sd g) = None <->
  seed_in_range sd = false \/
  exists c k u1 u2,
    fst (add_columns p sd df g) = Some c /\
    nth_error (c_U1 c) k = Some u1 /\ nth_error (c_U2 c) k = Some u2 /\
    ((u1 =? u2)%float = true \/ is_nan u1 = true \/ is_nan u2 = true).
Proof.
  intros Hdf.
  rewrite build_frame_spec in Hdf; injection Hdf as <-.
  destruct (seed_in_range sd) eqn:Hs.
  - rewrite add_columns_spec by exact Hs; cbn [fst].
    set (c := columns_spec p sd (frame_spec tasks N)).
    split.
    + intros Hn; right.
      destruct (has_tie c) eqn:Ht.
      * apply tie_exists in Ht as (k & u1 & u2 & H1 & H2 & E1 & E2).
        exists c, k, u1, u2; repeat split; auto.
        apply float_unordered; assumption.
      * destruct (generate_without_tie tasks N p sd g Hs Ht)
          as (obs & Ho & _); congruence.
    + intros [Hf|(c' & k & u1 & u2 & Hc & H1 & H2 & E)]; [discriminate|].
      injection Hc as <-.
      apply generate_with_tie; [exact Hs|].
      apply tie_exists; exists k, u1, u2.
      split; [exact H1|]; split; [exact H2|].
      destruct E as [E|E].
      * destruct (@float_eqb_not_ltb u1 u2 E); unfold gtb; auto.
      * destruct (@float_nan_not_ltb u1 u2 E); unfold gtb; auto.
  - rewrite generate_bad_seed by exact Hs; cbn [fst].
    split; auto.
Qed.

Lemma X1_run_fails_exactly_on_ties_witness :
  fst (@generate tie_stream tasks 1 dgp 42 0) = None <->
  seed_in_range 42 = false \/
  exists c k u1 u2,
    fst (@add_columns tie_stream dgp 42 (frame_spec tasks 1) 0) = Some c /\
    nth_error (c_U1 c) k = Some u1 /\ nth_error (c_U2 c) k = Some u2 /\
    ((u1 =? u2)%float = true \/ is_nan u1 = true \/ is_nan u2 = true).
Proof.
  apply (@X1_run_fails_exactly_on_ties tie_stream tasks 1 dgp 42 0
           (frame_spec tasks 1)).
  reflexivity.
Defined.

Section RunFacts.
Context `{RandomState}.

Lemma generate_choices tasks N p sd g obs :
  fst (generate tasks N p sd g) = Some obs ->
  Forall (fun o => CHOICE o = 1%Z \/ CHOICE o = 2%Z) obs.
Proof.
  intros Hg; pose proof (generate_Some_seed _ _ _ _ _ Hg) as Hs.
  rewrite generate_eq in Hg by exact Hs.
  apply Forall_forall; intros o Ho.
  apply In_nth_error in Ho as [k Hk].
  destruct (select_output_nth_error _ _ _ Hg Hk) as [_ Hc].
  set (c := columns_spec p sd (frame_spec tasks N)) in *.
  pose proof (columns_lengths p sd (frame_spec tasks N))
    as (_ & _ & L1 & L2); fold c in L1, L2.
  assert (Hlt : k < length (frame_spec tasks N)).
  { rewrite <- (columns_choice_length p sd (frame_spec tasks N)).
    apply nth_error_Some; fold c; congruence. }
  destruct (nth_error (c_U1 c) k) as [u1|] eqn:E1;
    [|apply nth_error_None in E1; lia].
  destruct (nth_error (c_U2 c) k) as [u2|] eqn:E2;
    [|apply nth_error_None in E2; lia].
  change (c_CHOICE c) with (assign_choice (c_U1 c) (c_U2 c)) in Hc.
  rewrite (assign_choice_nth_error _ _ _ E1 E2) in Hc.
  injection Hc as Hc; exact (choice_of_values _ _ Hc).
Qed.

Lemma generate_length tasks N p sd g obs :
  fst (generate tasks N p sd g) = Some obs ->
  length obs = N * length tasks.
Proof.
  intros Hg; pose proof (generate_Some_seed _ _ _ _ _ Hg) as Hs.
  rewrite generate_eq in Hg by exact Hs.
  rewrite <- (length_map o_row).
  rewrite (select_output_rows _ _ (columns_choice_length _ _ _) Hg).
  apply frame_spec_length.
Qed.

End RunFacts.

(** X2: every observation a run returns has chosen alternative 1 or 2;
    no other value, and no missing value, reaches the data set. *)
Theorem X2_choices_are_1_or_2 `{RandomState}
    (tasks : list task) (N : nat) (p : true_params) (sd : Z) (g : rng)
    (obs : list observation) :
  fst (generate tasks N p sd g) = Some obs ->
  Forall (fun o => CHOICE o = 1%Z \/ CHOICE o = 2%Z) obs.
Proof.
  apply generate_choices.
Qed.

Lemma X2_choices_are_1_or_2_witness :
  exists obs,
    fst (@generate position_stream tasks 2 dgp 42 0) = Some obs /\
    Forall (fun o => CHOICE o = 1%Z \/ CHOICE o = 2%Z) obs.
Proof.
  eexists; split.
  - vm_compute; reflexivity.
  - apply (@X2_choices_are_1_or_2 position_stream tasks 2 dgp 42 0).
    vm_compute; reflexivity.
Defined.

(** X3: whatever state the process-wide generator was in, a seeded run
    leaves it where [2 * N * T] draws from the seeded state lead: the seed
    and the size of the frame fix everything drawn afterwards. *)
Theorem X3_state_after_run `{RandomState}
    (tasks : list task) (N : nat) (p : true_params) (sd : Z) (g : rng) :
  seed_in_range sd = true ->
  snd (generate tasks N p sd g)
    = advance (2 * (N * length tasks)) (seed_state sd) /\
  snd (generate tasks N p sd g)
    = snd (np_random_gumbel (2 * (N * length tasks)) (seed_state sd)).
Proof.
  intros Hs.
  assert (E : snd (generate tasks N p sd g)
              = advance (2 * (N * length tasks)) (seed_state sd)).
  { unfold generate; rewrite build_frame_spec.
    unfold bind, ret; rewrite add_columns_spec by exact Hs.
    rewrite frame_spec_length; cbn [snd]; f_equal; lia. }
  split; [exact E|].
  rewrite E, np_random_gumbel_spec; reflexivity.
Qed.

Lemma X3_state_after_run_witness :
  snd (@generate position_stream tasks 2 dgp 42 7)
    = @advance position_stream (2 * (2 * length tasks)) (seed_state 42) /\
  snd (@generate position_stream tasks 2 dgp 42 7)
    = snd (@np_random_gumbel position_stream (2 * (2 * length tasks))
             (seed_state 42)).
Proof.
  apply (@X3_state_after_run position_stream tasks 2 dgp 42 7).
  reflexivity.
Defined.

(** X4: vectorised draws compose: a draw of size [n] followed by a draw of
    size [m] yields, joined, what one draw of size [n + m] yields, and
    leaves the generator in the same state.  So the columns epsilon1 and
    epsilon2 are the two halves of a single draw of twice the size. *)
Theorem X4_draws_compose `{RandomState} (n m : nat) (g : rng) :
  np_random_gumbel (n + m) g
  = (fst (np_random_gumbel n g)
       ++ fst (np_random_gumbel m (snd (np_random_gumbel n g))),
     snd (np_random_gumbel m (snd (np_random_gumbel n g)))) /\
  (forall p sd df g',
      seed_in_range sd = true ->
      exists c,
        fst (add_columns p sd df g') = Some c /\
        c_epsilon1 c ++ c_epsilon2 c
        = fst (np_random_gumbel (length df + length df) (seed_state sd))).
Proof.
  assert (E : forall a b s,
             map (draw s) (seq 0 (a + b))
             = map (draw s) (seq 0 a) ++ map (draw (advance a s)) (seq 0 b)).
  { intros a b s; rewrite seq_app, map_app; f_equal.
    cbn [Nat.add]; rewrite map_seq_from; apply map_ext; intros k.
    rewrite draw_advance; reflexivity. }
  split.
  - rewrite !np_random_gumbel_spec; cbn [fst snd].
    rewrite E, advance_add; reflexivity.
  - intros p sd df g' Hs.
    exists (columns_spec p sd df).
    split; [rewrite add_columns_spec by exact Hs; reflexivity|].
    rewrite np_random_gumbel_spec; cbn [fst columns_spec
      c_epsilon1 c_epsilon2].
    rewrite E; f_equal.
    rewrite map_seq_from; apply map_ext; intros k.
    rewrite draw_advance; reflexivity.
Qed.

Lemma loc_assign_masks_commute (U1 U2 : list float)
    (col : list (option Z)) :
  Np.loc_assign (Np.series_map2 gtb U1 U2) (Some 1%Z)
    (Np.loc_assign (Np.series_map2 gtb U2 U1) (Some 2%Z) col)
  = Np.loc_assign (Np.series_map2 gtb U2 U1) (Some 2%Z)
      (Np.loc_assign (Np.series_map2 gtb U1 U2) (Some 1%Z) col).
Proof.
  unfold Np.loc_assign.
  revert U2 col; induction U1 as [|u1 U1 IH]; intros [|u2 U2] [|x col];
    cbn [Np.series_map2]; try reflexivity.
  rewrite IH; f_equal.
  destruct (gtb u1 u2) eqn:E12, (gtb u2 u1) eqn:E21; try reflexivity.
  rewrite (@gtb_asym u1 u2 E12) in E21; discriminate.
Qed.

(** X5: the two masks [U1 > U2] and [U2 > U1] are never both true on a row,
    so the order of the two masked assignments is immaterial: assigning 2
    first and 1 second gives the same column. *)
Theorem X5_assignment_order_immaterial (U1 U2 : list float) :
  assign_choice_swapped U1 U2 = assign_choice U1 U2 /\
  (forall k,
      nth_error (Np.series_map2 gtb U1 U2) k = Some true ->
      nth_error (Np.series_map2 gtb U2 U1) k <> Some true).
Proof.
  split.
  - unfold assign_choice_swapped, assign_choice.
    apply loc_assign_masks_commute.
  - intros k H12 H21.
    apply series_map2_nth_error_inv in H12 as (a & b & Ha & Hb & E12).
    apply series_map2_nth_error_inv in H21 as (b' & a' & Hb' & Ha' & E21).
    assert (a' = a) by congruence; assert (b' = b) by congruence; subst.
    symmetry in E12, E21.
    rewrite (@gtb_asym a b E12) in E21; discriminate.
Qed.

(** X6: with no respondents a seeded run neither draws nor fails: it
    returns the empty data set, the file holds the header line alone, and
    the generator is left in the seeded state. *)
Theorem X6_no_respondents `{RandomState}
    (tasks : list task) (p : true_params) (sd : Z) (g : rng) :
  tasks <> [] ->
  seed_in_range sd = true ->
  fst (generate tasks 0 p sd g) = Some [] /\
  snd (generate tasks 0 p sd g) = seed_state sd /\
  option_map Csv.to_csv (fst (generate tasks 0 p sd g))
    = Some (Csv.join Csv.comma Csv.header
              ++ String Csv.newline EmptyString)%string.
Proof.
  intros _ Hs.
  assert (E : generate tasks 0 p sd g = (Some [], seed_state sd)).
  { unfold generate; rewrite build_frame_spec.
    unfold bind, ret; rewrite add_columns_spec by exact Hs; reflexivity. }
  rewrite E; repeat split.
Qed.

Lemma X6_no_respondents_witness :
  fst (@generate position_stream tasks 0 dgp 42 7) = Some [] /\
  snd (@generate position_stream tasks 0 dgp 42 7) = 0 /\
  option_map Csv.to_csv (fst (@generate position_stream tasks 0 dgp 42 7))
    = Some (Csv.join Csv.comma Csv.header
              ++ String Csv.newline EmptyString)%string.
Proof.
  apply (@X6_no_respondents position_stream tasks dgp 42 7).
  - discriminate.
  - reflexivity.
Defined.

(** X13: each of the seven columns the second cell adds has exactly one
    entry per row of the frame, [N * T] in all, so no element-wise operation
    ever meets a missing partner. *)
Theorem X13_columns_are_aligned `{RandomState}
    (tasks : list task) (N : nat) (p : true_params) (sd : Z) (g : rng)
    (df : list row) (c : columns) :
  build_frame tasks N = Some df ->
  fst (add_columns p sd df g) = Some c ->
  let n := N * length tasks in
  length df = n /\
  length (c_V1 c) = n /\ length (c_V2 c) = n /\
  length (c_epsilon1 c) = n /\ length (c_epsilon2 c) = n /\
  length (c_U1 c) = n /\ length (c_U2 c) = n /\
  length (c_CHOICE c) = n.
Proof.
  intros Hdf Hc n.
  rewrite build_frame_spec in Hdf; injection Hdf as <-.
  assert (Hs : seed_in_range sd = true).
  { destruct (seed_in_range sd) eqn:Hs; [reflexivity|].
    rewrite add_columns_bad_seed in Hc by exact Hs; discriminate. }
  rewrite add_columns_spec in Hc by exact Hs; injection Hc as <-.
  pose proof (columns_lengths p sd (frame_spec tasks N))
    as (L1 & L2 & L3 & L4).
  pose proof (columns_choice_length p sd (frame_spec tasks N)) as L5.
  pose proof (frame_spec_length tasks N) as L.
  cbn [columns_spec c_V1 c_V2] in *; rewrite !length_map.
  subst n; repeat split; congruence.
Qed.

Lemma X13_columns_are_aligned_witness :
  let c := @columns_spec position_stream dgp 42 (frame_spec tasks 2) in
  let n := 2 * length tasks in
  length (frame_spec tasks 2) = n /\
  length (c_V1 c) = n /\ length (c_V2 c) = n /\
  length (c_epsilon1 c) = n /\ length (c_epsilon2 c) = n /\
  length (c_U1 c) = n /\ length (c_U2 c) = n /\
  length (c_CHOICE c) = n.
Proof.
  intros c.
  apply (@X13_columns_are_aligned position_stream tasks 2 dgp 42 0
           (frame_spec tasks 2) c).
  - reflexivity.
  - reflexivity.
Defined.

(** * Further properties of the data file *)

Section CsvProperties.
Local Open Scope string_scope.

Lemma count_char_append c a b :
  count_char c (a ++ b) = count_char c a + count_char c b.
Proof.
  induction a as [|x a IH]; cbn [append count_char]; [reflexivity|].
  rewrite IH; lia.
Qed.

Lemma count_char_absent c s :
  Csv.has_char c s = false -> count_char c s = 0.
Proof.
  induction s as [|x s IH]; cbn [Csv.has_char count_char]; [reflexivity|].
  intros Hc; apply orb_false_iff in Hc as [Hx Hs].
  rewrite Hx, (IH Hs); reflexivity.
Qed.

Lemma count_comma_line o :
  count_char Csv.comma (Csv.join Csv.comma (Csv.fields_of o)) = 5.
Proof.
  unfold Csv.fields_of; cbn [map Csv.join].
  repeat (rewrite count_char_append; cbn [count_char]).
  rewrite !count_char_absent by apply str_no_comma.
  rewrite Ascii.eqb_refl; reflexivity.
Qed.

Lemma count_newline_line o :
  count_char Csv.newline (Csv.join Csv.comma (Csv.fields_of o)) = 0.
Proof. apply count_char_absent, line_no_newline. Qed.

(** X7: the data file determines the data set: two sequences of
    observations with the same file text are the same sequence. *)
Theorem X7_to_csv_injective (a b : list observation) :
  Csv.to_csv a = Csv.to_csv b -> a = b.
Proof.
  intros E.
  pose proof (read_csv_to_csv a) as Ha.
  rewrite E, read_csv_to_csv in Ha.
  injection Ha as <-; reflexivity.
Qed.

Lemma X7_to_csv_injective_witness :
  [Obs (Row 1 4 35 8 25) 2] = [Obs (Row 1 4 35 8 25) 2].
Proof.
  apply (@X7_to_csv_injective [Obs (Row 1 4 35 8 25) 2]
           [Obs (Row 1 4 35 8 25) 2]).
  reflexivity.
Defined.

(** X8: the file is the header line followed by one line per observation,
    every line ended by a newline; each line holds exactly five separators
    and no line break, and no field ever contains a comma or a line break.
    In all the text has [n + 1] newlines and [5 * (n + 1)] commas. *)
Theorem X8_file_shape (obs : list observation) :
  (exists lines,
      Csv.to_csv obs = Csv.unlines lines /\
      length lines = S (length obs) /\
      Forall (fun l => count_char Csv.comma l = 5 /\
                       count_char Csv.newline l = 0) lines) /\
  count_char Csv.newline (Csv.to_csv obs) = S (length obs) /\
  count_char Csv.comma (Csv.to_csv obs) = 5 * S (length obs) /\
  (forall o z,
      In o obs -> In z (Csv.fields_of o) ->
      Csv.has_char Csv.comma z = false /\
      Csv.has_char Csv.newline z = false).
Proof.
  assert (Hrows : forall os,
    count_char Csv.newline
      (Csv.unlines (map (fun o => Csv.join Csv.comma (Csv.fields_of o)) os))
      = length os /\
    count_char Csv.comma
      (Csv.unlines (map (fun o => Csv.join Csv.comma (Csv.fields_of o)) os))
      = 5 * length os).
  { induction os as [|o os [IHn IHc]]; [split; reflexivity|].
    cbn [map Csv.unlines length].
    rewrite !count_char_append; cbn [count_char].
    rewrite count_newline_line, count_comma_line, IHn, IHc.
    change (Ascii.eqb Csv.newline Csv.newline) with true.
    change (Ascii.eqb Csv.newline Csv.comma) with false.
    split; lia. }
  split.
  { exists (Csv.join Csv.comma Csv.header
            :: map (fun o => Csv.join Csv.comma (Csv.fields_of o)) obs).
    split; [reflexivity|].
    split; [cbn [length]; rewrite length_map; reflexivity|].
    constructor; [split; reflexivity|].
    apply Forall_forall; intros l Hl.
    apply in_map_iff in Hl as (o & <- & _).
    split; [apply count_comma_line | apply count_newline_line]. }
  destruct (Hrows obs) as [Hn Hc].
  unfold Csv.to_csv; cbn [Csv.unlines].
  rewrite !count_char_append; cbn [count_char].
  rewrite Hn, Hc.
  change (count_char Csv.newline (Csv.join Csv.comma Csv.header)) with 0.
  change (count_char Csv.comma (Csv.join Csv.comma Csv.header)) with 5.
  change (Ascii.eqb Csv.newline Csv.newline) with true.
  change (Ascii.eqb Csv.newline Csv.comma) with false.
  split; [lia|]; split; [lia|].
  intros o z _ Hz; unfold Csv.fields_of in Hz.
  apply in_map_iff in Hz as (x & <- & _).
  split; [apply str_no_comma | apply str_no_newline].
Qed.

End CsvProperties.

(** * Further properties of the estimator *)

Section EstimatorProperties.
Local Open Scope R_scope.
Local Open Scope string_scope.

(** The contribution of one row whose chosen alternative is 1 or 2. *)
Lemma LL_row (e1 e2 : Biogeme.expr) theta o v1 v2 :
  Biogeme.eval theta o e1 = Some v1 ->
  Biogeme.eval theta o e2 = Some v2 ->
  (CHOICE o = 1%Z ->
   Biogeme.LL e1 e2 Biogeme.CHOICE theta o
   = Some (ln (exp v1 / (exp v1 + exp v2)))) /\
  (CHOICE o = 2%Z ->
   Biogeme.LL e1 e2 Biogeme.CHOICE theta o
   = Some (ln (exp v2 / (exp v1 + exp v2)))).
Proof.
  intros E1 E2.
  destruct (prob_formula e1 e2 theta o E1 E2) as [P1 P2].
  unfold Biogeme.LL.
  change (Biogeme.index_of o Biogeme.CHOICE) with (Some (CHOICE o)).
  split; intros ->; [rewrite P1 | rewrite P2]; reflexivity.
Qed.

(** X9: at the starting values of the notebook (every parameter 0) both
    models give each alternative probability one half, so on a data set of
    [n] observations with choices 1 or 2 the log-likelihood the maximiser
    starts from is [- n * ln 2]. *)
Theorem X9_loglikelihood_at_start_values (database : list observation) :
  Forall (fun o => CHOICE o = 1%Z \/ CHOICE o = 2%Z) database ->
  map snd (Biogeme.start_values [Biogeme.V1; Biogeme.V2]) = [0; 0; 0] /\
  map snd (Biogeme.start_values [Biogeme.V1_noASC; Biogeme.V2_noASC])
    = [0; 0] /\
  Biogeme.loglikelihood Biogeme.V1 Biogeme.V2 Biogeme.CHOICE
    (fun _ => 0) database
    = Some (- INR (length database) * ln 2) /\
  Biogeme.loglikelihood Biogeme.V1_noASC Biogeme.V2_noASC Biogeme.CHOICE
    (fun _ => 0) database
    = Some (- INR (length database) * ln 2).
Proof.
  intros Hdb.
  assert (Hhalf : forall v1 v2, v1 = 0 -> v2 = 0 ->
            ln (exp v1 / (exp v1 + exp v2)) = - ln 2).
  { intros v1 v2 -> ->; rewrite exp_0.
    replace (1 / (1 + 1)) with (/ 2) by lra.
    apply ln_Rinv; lra. }
  assert (Hgen : forall e1 e2 : Biogeme.expr,
            (forall o, exists v, Biogeme.eval (fun _ => 0) o e1 = Some v
                                 /\ v = 0) ->
            (forall o, exists v, Biogeme.eval (fun _ => 0) o e2 = Some v
                                 /\ v = 0) ->
            Biogeme.loglikelihood e1 e2 Biogeme.CHOICE (fun _ => 0) database
            = Some (- INR (length database) * ln 2)).
  { intros e1 e2 H1 H2.
    induction Hdb as [|o db Ho _ IH].
    - cbn [Biogeme.loglikelihood length INR]; f_equal; lra.
    - destruct (H1 o) as (v1 & E1 & Z1), (H2 o) as (v2 & E2 & Z2).
      destruct (LL_row e1 e2 (fun _ => 0) o E1 E2) as [L1 L2].
      cbn [Biogeme.loglikelihood]; rewrite IH.
      change (length (o :: db)) with (S (length db)); rewrite S_INR.
      destruct Ho as [Ho|Ho]; [rewrite (L1 Ho) | rewrite (L2 Ho)];
        cbn [Biogeme.lift2]; f_equal.
      + rewrite (Hhalf v1 v2 Z1 Z2); lra.
      + rewrite (Rplus_comm (exp v1)), (Hhalf v2 v1 Z2 Z1); lra.
  }
  split; [reflexivity|]; split; [reflexivity|]; split; apply Hgen;
    intros o; eexists;
    (split; [first [apply eval_V1 | apply eval_V2 | apply eval_V1_noASC
                   | apply eval_V2_noASC]
            | cbv beta; lra]).
Qed.

Lemma X9_loglikelihood_at_start_values_witness :
  Biogeme.loglikelihood Biogeme.V1 Biogeme.V2 Biogeme.CHOICE
    (fun _ => 0) [Obs (Row 1 4 35 8 25) 2; Obs (Row 1 4 35 8 30) 1]
    = Some (- INR 2 * ln 2).
Proof.
  refine (proj1 (proj2 (proj2
            (@X9_loglikelihood_at_start_values
               [Obs (Row 1 4 35 8 25) 2; Obs (Row 1 4 35 8 30) 1] _)))).
  repeat (apply Forall_cons;
          [first [left; reflexivity | right; reflexivity]|]).
  apply Forall_nil.
Defined.

(** X11: the model without constants is the model with constants
    restricted to ASC2 = 0: at every parameter vector, on every row and on
    every data set, it has the probabilities and the log-likelihood of the
    model with constants at that vector with ASC2 set to 0. *)
Theorem X11_model_without_constants_is_nested
    (theta : string -> R) (database : list observation) :
  (forall o i,
      Biogeme.prob Biogeme.V1_noASC Biogeme.V2_noASC theta o i
      = Biogeme.prob Biogeme.V1 Biogeme.V2
          (Biogeme.override theta "ASC2" 0) o i) /\
  Biogeme.loglikelihood Biogeme.V1_noASC Biogeme.V2_noASC Biogeme.CHOICE
    theta database
  = Biogeme.loglikelihood Biogeme.V1 Biogeme.V2 Biogeme.CHOICE
      (Biogeme.override theta "ASC2" 0) database.
Proof.
  split; [intros o i; apply prob_noASC_restricts|].
  apply loglikelihood_noASC_restricts.
Qed.

(** X12: in exact arithmetic the value of travel time depends on the ratio
    of the two coefficients only: multiplying both by the same non-zero
    factor leaves it unchanged, and the two ways the notebook writes the
    formula agree. *)
Theorem X12_VTT_scale_free (k b_tt b_tc : R) :
  k <> 0 -> b_tc <> 0 ->
  VTT (k * b_tt) (k * b_tc) = VTT b_tt b_tc /\
  VTT_true b_tt b_tc = VTT b_tt b_tc.
Proof.
  intros Hk Hb; unfold VTT, VTT_true; split; field; auto.
Qed.

Lemma X12_VTT_scale_free_witness :
  VTT (2 * -1) (2 * -4) = VTT (-1) (-4) /\ VTT_true (-1) (-4) = VTT (-1) (-4).
Proof.
  apply (@X12_VTT_scale_free 2 (-1) (-4)); lra.
Defined.

(** X14: generator and estimator fit together.  The data set of a
    successful run with at least one row makes a database, and on it
    [estimate_mnl] reports a sample size of [N * T] for either model,
    whatever the maximiser returns; the data set of a run without rows is
    refused when the database is built. *)
Theorem X14_estimation_on_generated_data `{RandomState}
    (tasks : list task) (N : nat) (p : true_params) (sd : Z) (g : rng)
    (obs : list observation) (name : string) :
  fst (generate tasks N p sd g) = Some obs ->
  ((N * length tasks = 0)%nat -> Biogeme.Database name obs = None) /\
  ((N * length tasks <> 0)%nat ->
   exists db,
     Biogeme.Database name obs = Some db /\
     Biogeme.db_rows db = obs /\
     forall maximise model_name,
       Biogeme.sample_size
         (Biogeme.estimate_mnl maximise Biogeme.V1 Biogeme.V2
            Biogeme.CHOICE db model_name) = (N * length tasks)%nat /\
       Biogeme.sample_size
         (Biogeme.estimate_mnl maximise Biogeme.V1_noASC Biogeme.V2_noASC
            Biogeme.CHOICE db model_name) = (N * length tasks)%nat).
Proof.
  intros Hg; pose proof (generate_length _ _ _ _ _ Hg) as Hl.
  destruct obs as [|o os]; cbn [length] in Hl.
  - split; [reflexivity | intros Hn; congruence].
  - split; [intros Hn; rewrite Hn in Hl; discriminate|].
    intros _; eexists; split; [reflexivity|].
    split; [reflexivity|].
    intros maximise model_name; split; exact Hl.
Qed.

Lemma X14_estimation_on_generated_data_witness :
  exists obs,
    fst (@generate position_stream tasks 2 dgp 42 0%nat) = Some obs /\
    exists db,
      Biogeme.Database "synthetic_VTTdata" obs = Some db /\
      Biogeme.sample_size
        (Biogeme.estimate_mnl (fun _ _ _ => 0) Biogeme.V1 Biogeme.V2
           Biogeme.CHOICE db "m") = 10%nat.
Proof.
  eexists; split.
  - vm_compute; reflexivity.
  - destruct (@X14_estimation_on_generated_data position_stream tasks 2
                dgp 42 0%nat _ "synthetic_VTTdata"
                ltac:(vm_compute; reflexivity)) as [_ Hdb].
    destruct Hdb as (db & Hd & _ & Hsz); [simpl; discriminate|].
    exists db; split; [exact Hd|].
    exact (proj1 (Hsz (fun _ _ _ => 0) "m")).
Defined.

End EstimatorProperties.
